(** * The "add existing repository" dialog: path validation and trust

    A shallow embedding of the [AddExistingRepository] component of
    [src/app/src/ui/open-pull-request/open-pull-request-dialog.tsx]
    (second document of that file, lines 278-556).

    The component keeps its data in React view-state and talks to two
    asynchronous collaborators, [getRepositoryType] and [addSafeDirectory].
    An [async] method runs until its first pending [await]; what remains of
    it is a suspended task that is resumed when the awaited promise
    settles.  The embedding therefore has three layers:

    - [State], the view-state record, and the [setState] updates the
      methods perform on it;
    - [Controller], the view-state together with the suspended tasks and
      the log of calls made to the collaborators;
    - [Event] and [step], the things that can happen to a mounted dialog
      (the user edits the path, picks a directory, clicks the trust link,
      or a pending promise settles), and [run] over a list of them.

    [setState] updates are processed by React in the order they are
    enqueued and every handler below reads [this.state] before it enqueues
    an update of the fields it reads, so an update is modelled as applied
    at the place where the source enqueues it. *)

From Stdlib Require Import Ascii.
From stdpp Require Import base list strings.

Open Scope string_scope.

(** ** Collaborators *)

(** Modelled from the spec: the result type of [getRepositoryType], declared
    in [lib/git], which is not part of the sources at hand.  Section 3 of
    the specification lists its four variants; [validatePath] tests
    [type.kind] against ['missing'], ['unsafe'] and ['bare'] and reads
    [type.path] of an unsafe result. *)
Inductive RepositoryType : Type :=
  | Missing
  | Unsafe (path : string)
  | Bare
  | Valid.

#[global] Instance RepositoryType_eq_dec : EqDecision RepositoryType.
Proof. solve_decision. Defined.

(** A call made to a collaborator. *)
Inductive Call : Type :=
  | GetRepositoryType (path : string)
  | AddSafeDirectory (path : string).

#[global] Instance Call_eq_dec : EqDecision Call.
Proof. solve_decision. Defined.

(** ** View-state: [IAddExistingRepositoryState] *)

Record State : Type := mkState {
  path : string;
  isRepository : bool;
  showNonGitRepositoryWarning : bool;
  isRepositoryBare : bool;
  isRepositoryUnsafe : bool;
  repositoryUnsafePath : option string;
  isTrustingRepository : bool
}.

#[global] Instance State_eq_dec : EqDecision State.
Proof. solve_decision. Defined.

(** The state built by the constructor from the optional [path] prop
    ([this.props.path ? this.props.path : '']). *)
Definition initialState (propsPath : option string) : State :=
  {| path := match propsPath with
             | Some p => p
             | None => ""
             end;
     isRepository := false;
     showNonGitRepositoryWarning := false;
     isRepositoryBare := false;
     isRepositoryUnsafe := false;
     repositoryUnsafePath := None;
     isTrustingRepository := false |}.

(** [path.length === 0] *)
Definition isEmpty (p : string) : bool := bool_decide (p = "").

(** [this.setState({ isTrustingRepository: b })] *)
Definition setTrusting (b : bool) (s : State) : State :=
  {| path := path s;
     isRepository := isRepository s;
     showNonGitRepositoryWarning := showNonGitRepositoryWarning s;
     isRepositoryBare := isRepositoryBare s;
     isRepositoryUnsafe := isRepositoryUnsafe s;
     repositoryUnsafePath := repositoryUnsafePath s;
     isTrustingRepository := b |}.

(** [this.setState({ path, isRepository: false })], first line of
    [updatePath]. *)
Definition setPathState (p : string) (s : State) : State :=
  {| path := p;
     isRepository := false;
     showNonGitRepositoryWarning := showNonGitRepositoryWarning s;
     isRepositoryBare := isRepositoryBare s;
     isRepositoryUnsafe := isRepositoryUnsafe s;
     repositoryUnsafePath := repositoryUnsafePath s;
     isTrustingRepository := isTrustingRepository s |}.

(** The update [validatePath] makes for an empty path: three fields are
    written, the others are not mentioned. *)
Definition resetForEmptyPath (s : State) : State :=
  {| path := path s;
     isRepository := false;
     showNonGitRepositoryWarning := false;
     isRepositoryBare := false;
     isRepositoryUnsafe := isRepositoryUnsafe s;
     repositoryUnsafePath := repositoryUnsafePath s;
     isTrustingRepository := isTrustingRepository s |}.

(** The five constants [validatePath] computes from the classifier's
    answer. *)
Definition kindIsMissing (t : RepositoryType) : bool :=
  match t with Missing => true | _ => false end.
Definition kindIsUnsafe (t : RepositoryType) : bool :=
  match t with Unsafe _ => true | _ => false end.
Definition kindIsBare (t : RepositoryType) : bool :=
  match t with Bare => true | _ => false end.

Definition isRepositoryOf (t : RepositoryType) : bool :=
  negb (kindIsMissing t) && negb (kindIsUnsafe t).
Definition isRepositoryUnsafeOf (t : RepositoryType) : bool := kindIsUnsafe t.
Definition isRepositoryBareOf (t : RepositoryType) : bool := kindIsBare t.
Definition showNonGitRepositoryWarningOf (t : RepositoryType) : bool :=
  negb (isRepositoryOf t) || isRepositoryBareOf t.
Definition repositoryUnsafePathOf (t : RepositoryType) : option string :=
  match t with Unsafe p => Some p | _ => None end.

(** The object returned by the updater when the paths agree. *)
Definition writeResult (t : RepositoryType) (s : State) : State :=
  {| path := path s;
     isRepository := isRepositoryOf t;
     showNonGitRepositoryWarning := showNonGitRepositoryWarningOf t;
     isRepositoryBare := isRepositoryBareOf t;
     isRepositoryUnsafe := isRepositoryUnsafeOf t;
     repositoryUnsafePath := repositoryUnsafePathOf t;
     isTrustingRepository := isTrustingRepository s |}.

(** The functional update at the end of [validatePath]:
    [state => path === state.path ? {...} : null]. *)
Definition applyResult (requested : string) (t : RepositoryType) (s : State) : State :=
  if decide (requested = path s) then writeResult t s else s.

(** ** Rendering *)

(** [disabled] in [render]; the OK button is enabled when it is false. *)
Definition disabled (s : State) : bool :=
  isEmpty (path s) || negb (isRepository s) || isRepositoryBare s.

Definition canSubmit (s : State) : bool := negb (disabled s).

(** Whether [renderWarning] puts the trust link, the only element bound to
    [onTrustDirectory], on the screen. *)
Definition trustLinkShown (s : State) : bool :=
  if isEmpty (path s) || negb (showNonGitRepositoryWarning s) then false
  else if isRepositoryBare s then false
  else isRepositoryUnsafe s && bool_decide (repositoryUnsafePath s <> None).

(** ** Suspended tasks *)

(** What the caller of [validatePath] does once that promise resolves. *)
Inductive Continuation : Type :=
  | Return                (* [updatePath], [componentDidMount] *)
  | ResetTrusting.        (* [onTrustDirectory], its last line *)

Inductive Task : Type :=
  (* [validatePath path] waiting for [getRepositoryType path] *)
  | AwaitType (requested : string) (k : Continuation)
  (* [onTrustDirectory] waiting for [addSafeDirectory unsafePath], with the
     [path] it read from the state before waiting *)
  | AwaitSafe (unsafePath : string) (captured : string).

#[global] Instance Continuation_eq_dec : EqDecision Continuation.
Proof. solve_decision. Defined.
#[global] Instance Task_eq_dec : EqDecision Task.
Proof. solve_decision. Defined.

Record Controller : Type := mkController {
  state : State;
  pending : list Task;
  calls : list Call
}.

Definition withState (f : State -> State) (c : Controller) : Controller :=
  {| state := f (state c); pending := pending c; calls := calls c |}.

(** Start a call to a collaborator and suspend on it. *)
Definition suspend (call : Call) (t : Task) (c : Controller) : Controller :=
  {| state := state c; pending := pending c ++ [t]; calls := calls c ++ [call] |}.

Definition continue (k : Continuation) (s : State) : State :=
  match k with
  | Return => s
  | ResetTrusting => setTrusting false s
  end.

(** [validatePath], up to its [await]; [k] is what its caller does next. *)
Definition validatePath (p : string) (k : Continuation) (c : Controller) : Controller :=
  if isEmpty p then withState (continue k) (withState resetForEmptyPath c)
  else suspend (GetRepositoryType p) (AwaitType p k) c.

(** [validatePath] from the answer of [getRepositoryType] on. *)
Definition validatePathResume (p : string) (k : Continuation) (t : RepositoryType)
    (c : Controller) : Controller :=
  withState (continue k) (withState (applyResult p t) c).

Definition updatePath (p : string) (c : Controller) : Controller :=
  validatePath p Return (withState (setPathState p) c).

Definition onPathChanged (p : string) (c : Controller) : Controller :=
  if decide (path (state c) <> p) then updatePath p c else c.

(** [showFilePicker] once the open dialog has answered. *)
Definition showFilePicker (picked : option string) (c : Controller) : Controller :=
  match picked with
  | None => c
  | Some p => updatePath p c
  end.

(** A string is truthy in JavaScript when it is not empty. *)
Definition truthy (o : option string) : option string :=
  match o with
  | Some p => if isEmpty p then None else Some p
  | None => None
  end.

(** [onTrustDirectory], up to its first pending [await]. *)
Definition onTrustDirectory (c : Controller) : Controller :=
  let c1 := withState (setTrusting true) c in
  let repositoryUnsafePath := repositoryUnsafePath (state c) in
  let path := path (state c) in
  match truthy repositoryUnsafePath with
  | Some unsafePath => suspend (AddSafeDirectory unsafePath) (AwaitSafe unsafePath path) c1
  | None => validatePath path ResetTrusting c1
  end.

(** [onTrustDirectory] after [addSafeDirectory] has resolved. *)
Definition onTrustDirectoryResume (captured : string) (c : Controller) : Controller :=
  validatePath captured ResetTrusting c.

(** The constructor followed by [componentDidMount]. *)
Definition mount (propsPath : option string) : Controller :=
  let c := {| state := initialState propsPath; pending := []; calls := [] |} in
  if negb (isEmpty (path (state c))) then validatePath (path (state c)) Return c else c.

(** ** Events *)

(** How a pending promise settles. *)
Inductive Settlement : Type :=
  | TypeIs (t : RepositoryType)   (* [getRepositoryType] resolves *)
  | SafeAdded                     (* [addSafeDirectory] resolves *)
  | SafeFailed.                   (* [addSafeDirectory] rejects *)

Inductive Event : Type :=
  | PathChanged (p : string)             (* [onValueChanged] of the text box *)
  | FilePicked (picked : option string)  (* answer of [showOpenDialog] *)
  | TrustClicked                         (* click on the trust link *)
  | Settle (i : nat) (r : Settlement).   (* the [i]-th pending task's promise *)

Definition withoutTask (i : nat) (c : Controller) : Controller :=
  {| state := state c; pending := delete i (pending c); calls := calls c |}.

(** Resume the [i]-th suspended task.  A rejected [addSafeDirectory] makes
    the [await] throw inside [onTrustDirectory], which has no handler: the
    rest of the method is skipped.  A settlement that does not fit the task
    cannot happen and changes nothing. *)
Definition settle (i : nat) (r : Settlement) (c : Controller) : Controller :=
  match pending c !! i, r with
  | Some (AwaitType p k), TypeIs t => validatePathResume p k t (withoutTask i c)
  | Some (AwaitSafe _ captured), SafeAdded => onTrustDirectoryResume captured (withoutTask i c)
  | Some (AwaitSafe _ _), SafeFailed => withoutTask i c
  | _, _ => c
  end.

Definition step (e : Event) (c : Controller) : Controller :=
  match e with
  | PathChanged p => onPathChanged p c
  | FilePicked picked => showFilePicker picked c
  | TrustClicked => if trustLinkShown (state c) then onTrustDirectory c else c
  | Settle i r => settle i r c
  end.

Definition run (es : list Event) (c : Controller) : Controller :=
  foldl (fun c e => step e c) c es.

(** Two situations used as examples below. *)

(** The dialog showing "/a" as unsafe and the trust link clicked. *)
Definition trustClicked : Controller :=
  run [PathChanged "/a"; Settle 0 (TypeIs (Unsafe "/a")); TrustClicked] (mount None).

(** The dialog showing "/a" as unsafe, the trust link clicked, and the path
    edited to "/b" while [addSafeDirectory] is running. *)
Definition trustThenEdit : Controller :=
  run [PathChanged "/a"; Settle 0 (TypeIs (Unsafe "/a")); TrustClicked; PathChanged "/b"]
      (mount None).

(** ** The snapshot of the specification

    The specification describes the dialog by a snapshot whose
    classification is [None], [Pending] or one of the classifier's answers
    (sections 3 and 4.2).  The view-state has no such field, so the
    snapshot classification is tracked next to the controller, following
    the specification's words: a [setPath] makes it [None] for an empty
    path and [Pending] otherwise, and a classifier's answer that is
    applied replaces it. *)

Inductive Classification : Type :=
  | CNone
  | CPending
  | CKnown (t : RepositoryType).

#[global] Instance Classification_eq_dec : EqDecision Classification.
Proof. solve_decision. Defined.

Definition specSetPath (p : string) : Classification :=
  if isEmpty p then CNone else CPending.

Definition specStep (e : Event) (c : Controller) (k : Classification) : Classification :=
  match e with
  | PathChanged p => if decide (path (state c) <> p) then specSetPath p else k
  | FilePicked (Some p) => specSetPath p
  | FilePicked None => k
  | TrustClicked => k
  | Settle i (TypeIs t) =>
      match pending c !! i with
      | Some (AwaitType p _) => if decide (p = path (state c)) then CKnown t else k
      | _ => k
      end
  | Settle _ _ => k
  end.

Definition trackedStep (e : Event) (ck : Controller * Classification)
    : Controller * Classification :=
  (step e ck.1, specStep e ck.1 ck.2).

Definition trackedRun (es : list Event) (ck : Controller * Classification)
    : Controller * Classification :=
  foldl (fun ck e => trackedStep e ck) ck es.

Definition trackedMount (propsPath : option string) : Controller * Classification :=
  (mount propsPath, specSetPath (path (initialState propsPath))).

(** The submission gate as the specification words it (section 4.4). *)
Definition specCanSubmit (p : string) (k : Classification) : bool :=
  negb (isEmpty p) && bool_decide (k = CKnown Valid).

(** *** How the snapshot and the view-state relate *)

(** The suspended tasks of a mounted dialog are all for non-empty paths. *)
Definition taskPathNonEmpty (t : Task) : Prop :=
  match t with
  | AwaitType p _ => p <> ""
  | AwaitSafe _ captured => captured <> ""
  end.

(** What the view-state holds when the snapshot classification is [k]. *)
Definition agrees (s : State) (k : Classification) : Prop :=
  match k with
  | CNone => path s = ""
  | CPending => path s <> "" /\ isRepository s = false
  | CKnown t => path s <> "" /\ writeResult t s = s
  end.

Definition consistent (ck : Controller * Classification) : Prop :=
  Forall taskPathNonEmpty (pending ck.1) /\ agrees (state ck.1) ck.2.

(** ** Path normalisation: [resolvedPath]

    [resolvedPath path] is [Path.resolve('/', untildify(path))].  Both
    functions come from packages outside the repository, so they are
    modelled here. *)

Module PathNormalizer.

Definition startsWith (c : ascii) (s : string) : bool :=
  match s with
  | String c' _ => bool_decide (c' = c)
  | EmptyString => false
  end.

(** [s.split(sep)] for a one-character separator. *)
Fixpoint split (sep : ascii) (s : string) : list string :=
  match s with
  | EmptyString => [EmptyString]
  | String c rest =>
      if bool_decide (c = sep) then EmptyString :: split sep rest
      else match split sep rest with
           | seg :: segs => String c seg :: segs
           | [] => [String c EmptyString]
           end
  end.

(** [segs.join('/')] *)
Definition join (segs : list string) : string := String.concat "/" segs.

(** The segments of a path with empty and [.] segments dropped and each
    [..] cancelling the segment before it; at the root a [..] is dropped.
    [stack] holds the segments kept so far, last one first. *)
Fixpoint normalizeSegments (stack segs : list string) : list string :=
  match segs with
  | [] => rev stack
  | seg :: rest =>
      if bool_decide (seg = "") || bool_decide (seg = ".") then normalizeSegments stack rest
      else if bool_decide (seg = "..") then normalizeSegments (tail stack) rest
      else normalizeSegments (seg :: stack) rest
  end.

(** [s.includes(c)] *)
Fixpoint contains (c : ascii) (s : string) : bool :=
  match s with
  | EmptyString => false
  | String c' rest => bool_decide (c' = c) || contains c rest
  end.

(** A segment that [normalizeSegments] keeps. *)
Definition kept (seg : string) : Prop :=
  seg <> "" /\ seg <> "." /\ seg <> ".." /\ contains "/" seg = false.

Section WithHome.

(** The current user's home directory, [os.homedir()]. *)
Variable homeDirectory : string.

(** Modelled from the spec: [untildify], which "expands a leading
    home-directory shorthand to the current user's home directory"
    (section 4.1): a leading [~] that is the whole string or is followed
    by a slash or a backslash is replaced by the home directory, when
    there is one. *)
Definition untildify (p : string) : string :=
  if isEmpty homeDirectory then p
  else match p with
       | String "~" rest =>
           if isEmpty rest || startsWith "/" rest || startsWith "\" rest
           then homeDirectory +:+ rest
           else p
       | _ => p
       end.

(** Modelled from the spec: [Path.resolve('/', p)], which "resolves the
    result to an absolute path using [/] as the root when the input is
    not already absolute" (section 4.1).  The arguments are taken from
    the right until an absolute one is met, each followed by a slash;
    the segments of the result are then normalised. *)
Definition resolve (p : string) : string :=
  let resolvedPath :=
    if isEmpty p then "/" +:+ "/"
    else if startsWith "/" p then p +:+ "/"
    else "/" +:+ "/" +:+ p +:+ "/" in
  "/" +:+ join (normalizeSegments [] (split "/" resolvedPath)).

Definition resolvedPath (p : string) : string := resolve (untildify p).

End WithHome.

End PathNormalizer.

(** ** The warning under the text box: [renderWarning] *)

(** [path.replaceAll('\\', '/')] *)
Fixpoint replaceBackslashes (s : string) : string :=
  match s with
  | EmptyString => EmptyString
  | String c rest =>
      String (if bool_decide (c = "\"%char) then "/"%char else c) (replaceBackslashes rest)
  end.

(** What [renderWarning] returns: [null], the bare-repository text, the
    unsafe-repository text with the trust link (and the unsafe path after
    "at" when it is not the entered path), or the text with the link to
    create a repository. *)
Inductive Warning : Type :=
  | NoWarning
  | BareWarning
  | UnsafeWarning (shownPath : option string)
  | NotRepositoryWarning.

#[global] Instance Warning_eq_dec : EqDecision Warning.
Proof. solve_decision. Defined.

(** [win32] is the build constant [__WIN32__]. *)
Definition renderWarning (win32 : bool) (s : State) : Warning :=
  if isEmpty (path s) || negb (showNonGitRepositoryWarning s) then NoWarning
  else if isRepositoryBare s then BareWarning
  else match isRepositoryUnsafe s, repositoryUnsafePath s with
       | true, Some unsafePath =>
           let convertedPath := if win32 then replaceBackslashes (path s) else path s in
           UnsafeWarning (if decide (unsafePath <> convertedPath) then Some unsafePath else None)
       | _, _ => NotRepositoryWarning
       end.

(** ** Submitting: [addRepository] and [onCreateRepositoryClicked] *)

Module Submit.
Section WithRepository.

(** The repositories [dispatcher.addRepositories] answers with. *)
Context {Repository : Type}.

(** The current user's home directory, [os.homedir()]. *)
Variable homeDirectory : string.

(** Calls made to the props. *)
Inductive DispatcherCall : Type :=
  | OnDismissed
  | AddRepositories (paths : list string)
  | CloseFoldoutRepository
  | SelectRepository (r : Repository)
  | RecordAddExistingRepository
  | ShowCreateRepositoryPopup (path : string).

(** [addRepository], up to the [await]. *)
Definition addRepository (s : State) : list DispatcherCall :=
  let resolvedPath := PathNormalizer.resolvedPath homeDirectory (path s) in
  [OnDismissed; AddRepositories [resolvedPath]].

(** [addRepository] from the answer of [addRepositories] on. *)
Definition addRepositoryResume (repositories : list Repository) : list DispatcherCall :=
  match repositories with
  | [] => []
  | first :: _ => [CloseFoldoutRepository; SelectRepository first; RecordAddExistingRepository]
  end.

Definition onCreateRepositoryClicked (s : State) : list DispatcherCall :=
  let resolvedPath := PathNormalizer.resolvedPath homeDirectory (path s) in
  [ShowCreateRepositoryPopup resolvedPath].

End WithRepository.
End Submit.

(** ** Bookkeeping over runs *)

(** The path an event enters, if it enters one. *)
Definition enteredPath (e : Event) (current : string) : string :=
  match e with
  | PathChanged p => p
  | FilePicked (Some p) => p
  | _ => current
  end.

Definition lastEntered (es : list Event) (initial : string) : string :=
  foldl (fun p e => enteredPath e p) initial es.

Definition callPath (call : Call) : string :=
  match call with
  | GetRepositoryType p => p
  | AddSafeDirectory p => p
  end.

(** The calls a step adds. *)
Definition newCalls (e : Event) (c : Controller) : list Call :=
  match e with
  | PathChanged p =>
      if decide (path (state c) <> p)
      then (if isEmpty p then [] else [GetRepositoryType p]) else []
  | FilePicked (Some p) => if isEmpty p then [] else [GetRepositoryType p]
  | FilePicked None => []
  | TrustClicked =>
      if trustLinkShown (state c)
      then match truthy (repositoryUnsafePath (state c)) with
           | Some u => [AddSafeDirectory u]
           | None => if isEmpty (path (state c)) then []
                     else [GetRepositoryType (path (state c))]
           end
      else []
  | Settle i SafeAdded =>
      match pending c !! i with
      | Some (AwaitSafe _ captured) =>
          if isEmpty captured then [] else [GetRepositoryType captured]
      | _ => []
      end
  | Settle _ _ => []
  end.

(** Relations between the fields that hold in every state a mounted dialog
    can reach. *)
Definition flagsCoherent (s : State) : Prop :=
  (isRepositoryUnsafe s = true <-> repositoryUnsafePath s <> None)
  /\ (isRepositoryBare s = true ->
      showNonGitRepositoryWarning s = true /\ isRepositoryUnsafe s = false)
  /\ (isRepository s = true ->
      path s <> "" /\ isRepositoryUnsafe s = false
      /\ showNonGitRepositoryWarning s = isRepositoryBare s).

(** Whether two warnings are the same text (the unsafe text may name the
    path or not). *)
Definition sameKind (w1 w2 : Warning) : bool :=
  match w1, w2 with
  | NoWarning, NoWarning => true
  | BareWarning, BareWarning => true
  | UnsafeWarning _, UnsafeWarning _ => true
  | NotRepositoryWarning, NotRepositoryWarning => true
  | _, _ => false
  end.

(** A task left by [updatePath] or [componentDidMount]: a classification
    request after which nothing more is done. *)
Definition fromPathEdit (t : Task) : Prop :=
  exists p, t = AwaitType p Return.

(** An answer [Unsafe u] among the events. *)
Definition reportedUnsafe (u : string) (es : list Event) : Prop :=
  exists i, Settle i (TypeIs (Unsafe u)) ∈ es.

(** ** The "open a pull request" dialog

    [OpenPullRequestDialog], the first component of the same file (lines
    79-277).  It has no state of its own: everything is computed from the
    props. *)

Module OpenPullRequest.
Section Dialog.

(** [Branch], [Repository] and [ComputedAction] are declared in [models/],
    outside the sources at hand; the dialog reads [branch.name] and
    compares a merge status' [kind] with [ComputedAction.Invalid]. *)
Context {Branch Repository ComputedAction : Type} `{EqDecision ComputedAction}.
Variable branchName : Branch -> string.
Variable Invalid : ComputedAction.

(** The part of [commitSelection] the dialog looks at; the diff, the file
    and the changeset are handed on to [PullRequestFilesChanged]. *)
Record CommitSelection : Type := mkCommitSelection {
  shas : list string
}.

(** [IPullRequestState]; [mergeStatus] is given by its [kind]. *)
Record PullRequestState : Type := mkPullRequestState {
  baseBranch : option Branch;
  commitSHAs : option (list string);
  commitSelection : option CommitSelection;
  mergeStatus : option ComputedAction
}.

Record Props : Type := mkProps {
  repository : Repository;
  pullRequestState : PullRequestState;
  currentBranch : Branch;
  currentBranchHasPullRequest : bool
}.

(** What a part of [renderContent] puts on the screen. *)
Inductive Content : Type :=
  | NoChangesMessage (hasMergeBase : bool) (baseName currentName : string)
  | NoDefaultBranchMessage
  | FilesChanged (selection : CommitSelection).

(** [mergeStatus?.kind !== ComputedAction.Invalid] *)
Definition hasMergeBase (st : PullRequestState) : bool :=
  match mergeStatus st with
  | Some kind => bool_decide (kind <> Invalid)
  | None => true
  end.

Definition renderFilesChanged (props : Props) : option Content :=
  match commitSelection (pullRequestState props) with
  | None => None
  | Some selection =>
      if bool_decide (length (shas selection) = 0) then None
      else Some (FilesChanged selection)
  end.

Definition renderNoChanges (props : Props) : option Content :=
  let st := pullRequestState props in
  match commitSelection st, baseBranch st with
  | Some selection, Some base =>
      if bool_decide (length (shas selection) <> 0) then None
      else Some (NoChangesMessage (hasMergeBase st) (branchName base)
                   (branchName (currentBranch props)))
  | _, _ => None
  end.

Definition renderNoDefaultBranch (props : Props) : option Content :=
  match baseBranch (pullRequestState props) with
  | Some _ => None
  | None => Some NoDefaultBranchMessage
  end.

(** The children of the content [div], those that are not [undefined]. *)
Definition renderContent (props : Props) : list Content :=
  omap id [renderNoChanges props; renderNoDefaultBranch props; renderFilesChanged props].

(** [commitSHAs?.length ?? 0], the count shown by the header. *)
Definition commitCount (props : Props) : nat :=
  match commitSHAs (pullRequestState props) with
  | Some l => length l
  | None => 0
  end.

(** [okButtonDisabled] in [renderFooter]. *)
Definition okButtonDisabled (props : Props) : bool :=
  match commitSHAs (pullRequestState props) with
  | None => true
  | Some l => bool_decide (length l = 0)
  end.

(** [viewCreate] in [renderFooter]. *)
Definition viewCreate (props : Props) : string :=
  if currentBranchHasPullRequest props then "查看" else "创建".

Inductive DispatcherCall : Type :=
  | ShowPullRequest (r : Repository)
  | CreatePullRequest (r : Repository) (base : option Branch)
  | RecordCreatePullRequest
  | RecordCreatePullRequestFromPreview
  | OnDismissed.

Definition onCreatePullRequest (props : Props) : list DispatcherCall :=
  (if currentBranchHasPullRequest props
   then [ShowPullRequest (repository props)]
   else [CreatePullRequest (repository props) (baseBranch (pullRequestState props));
         RecordCreatePullRequest;
         RecordCreatePullRequestFromPreview])
  ++ [OnDismissed].

End Dialog.

(** A dialog for a branch without pull request, with base branch "main"
    and nothing selected; branches are given by their names. *)
Definition sampleProps : @Props string unit bool :=
  {| repository := tt;
     pullRequestState := {| baseBranch := Some "main";
                            commitSHAs := Some [];
                            commitSelection := None;
                            mergeStatus := None |};
     currentBranch := "feature";
     currentBranchHasPullRequest := false |}.

End OpenPullRequest.

(** * Properties *)

(** ** Elementary facts about the handlers *)

Lemma isEmpty_true (p : string) : isEmpty p = true <-> p = "".
Proof. unfold isEmpty. apply bool_decide_eq_true. Qed.

Lemma isEmpty_false (p : string) : isEmpty p = false <-> p <> "".
Proof. unfold isEmpty. apply bool_decide_eq_false. Qed.

Lemma validatePath_empty (k : Continuation) (c : Controller) :
  validatePath "" k c = withState (continue k) (withState resetForEmptyPath c).
Proof. reflexivity. Qed.

Lemma validatePath_nonempty (p : string) (k : Continuation) (c : Controller) :
  p <> "" -> validatePath p k c = suspend (GetRepositoryType p) (AwaitType p k) c.
Proof. intros Hp. unfold validatePath. apply isEmpty_false in Hp. now rewrite Hp. Qed.

Lemma applyResult_current (t : RepositoryType) (s : State) :
  applyResult (path s) t s = writeResult t s.
Proof. unfold applyResult. now rewrite decide_True. Qed.

Lemma applyResult_stale (p : string) (t : RepositoryType) (s : State) :
  p <> path s -> applyResult p t s = s.
Proof. intros Hp. unfold applyResult. now rewrite decide_False. Qed.

Lemma settle_type (i : nat) (p : string) (k : Continuation) (t : RepositoryType)
    (c : Controller) :
  pending c !! i = Some (AwaitType p k) ->
  settle i (TypeIs t) c =
    {| state := continue k (applyResult p t (state c));
       pending := delete i (pending c);
       calls := calls c |}.
Proof. intros Hi. unfold settle. now rewrite Hi. Qed.

Lemma settle_safe_added (i : nat) (u captured : string) (c : Controller) :
  pending c !! i = Some (AwaitSafe u captured) ->
  settle i SafeAdded c = validatePath captured ResetTrusting (withoutTask i c).
Proof. intros Hi. unfold settle. now rewrite Hi. Qed.

Lemma settle_safe_failed (i : nat) (u captured : string) (c : Controller) :
  pending c !! i = Some (AwaitSafe u captured) ->
  settle i SafeFailed c = withoutTask i c.
Proof. intros Hi. unfold settle. now rewrite Hi. Qed.

Lemma continue_path (k : Continuation) (s : State) : path (continue k s) = path s.
Proof. now destruct k. Qed.

(** ** Stale answers *)

Lemma run_cons (e : Event) (es : list Event) (c : Controller) :
  run (e :: es) c = run es (step e c).
Proof. reflexivity. Qed.

Lemma fromPathEdit_validatePath (p : string) (c : Controller) :
  Forall fromPathEdit (pending c) ->
  Forall fromPathEdit (pending (validatePath p Return c)).
Proof.
  intros Hc. unfold validatePath. destruct (isEmpty p); [exact Hc | ].
  cbn. apply Forall_app. split; [exact Hc | ]. apply Forall_singleton. now exists p.
Qed.

Lemma fromPathEdit_step (e : Event) (c : Controller) :
  e <> TrustClicked ->
  Forall fromPathEdit (pending c) -> Forall fromPathEdit (pending (step e c)).
Proof.
  intros He Hc. destruct e as [p | [p | ] | | i r]; cbn [step showFilePicker].
  - unfold onPathChanged. case_decide; [ | exact Hc].
    now apply fromPathEdit_validatePath.
  - now apply fromPathEdit_validatePath.
  - exact Hc.
  - contradiction.
  - unfold settle. destruct (pending c !! i) as [task | ] eqn:Hi; [ | exact Hc].
    destruct (Forall_lookup_1 _ _ _ _ Hc Hi) as [p ->].
    destruct r as [t | | ]; [ | exact Hc | exact Hc].
    cbn. now apply Forall_delete.
Qed.

Lemma fromPathEdit_run (es : list Event) (c : Controller) :
  TrustClicked ∉ es ->
  Forall fromPathEdit (pending c) -> Forall fromPathEdit (pending (run es c)).
Proof.
  revert c. induction es as [| e es IH]; intros c Hes Hc; [exact Hc | ].
  apply not_elem_of_cons in Hes as [He Hes].
  rewrite run_cons. apply IH; [exact Hes | ]. now apply fromPathEdit_step.
Qed.

Lemma fromPathEdit_mount (propsPath : option string) :
  Forall fromPathEdit (pending (mount propsPath)).
Proof.
  unfold mount. cbn [state]. destruct (negb _); [ | constructor].
  apply fromPathEdit_validatePath. constructor.
Qed.

(** C1.  Whatever has happened to the dialog since it was mounted, when the
    classifier answers a request made for path [p], the answer is written
    into the state exactly when [p] is the path the state holds at that
    moment: the five classification fields then take the values computed
    from the answer.  Otherwise the updater returns [null]: the path and
    the five fields stay as they were.  In both cases the caller's
    continuation runs afterwards; it does nothing for a request made by a
    path edit, so that without clicks on the trust link a stale answer
    leaves the entire state unchanged.  No call is made and the request is
    no longer pending. *)
Theorem result_applied_iff_current_path (es : list Event) (propsPath : option string)
    (i : nat) (p : string) (k : Continuation) (t : RepositoryType) :
  let c := run es (mount propsPath) in
  pending c !! i = Some (AwaitType p k) ->
  let c' := step (Settle i (TypeIs t)) c in
  (p = path (state c) ->
   state c' = continue k (writeResult t (state c))
   /\ state c' =
      {| path := p;
         isRepository := match t with Missing | Unsafe _ => false | Bare | Valid => true end;
         showNonGitRepositoryWarning := match t with Valid => false | _ => true end;
         isRepositoryBare := match t with Bare => true | _ => false end;
         isRepositoryUnsafe := match t with Unsafe _ => true | _ => false end;
         repositoryUnsafePath := match t with Unsafe u => Some u | _ => None end;
         isTrustingRepository := match k with
                                 | Return => isTrustingRepository (state c)
                                 | ResetTrusting => false
                                 end |})
  /\ (p <> path (state c) ->
      state c' = continue k (state c)
      /\ isRepository (state c') = isRepository (state c)
      /\ showNonGitRepositoryWarning (state c') = showNonGitRepositoryWarning (state c)
      /\ isRepositoryBare (state c') = isRepositoryBare (state c)
      /\ isRepositoryUnsafe (state c') = isRepositoryUnsafe (state c)
      /\ repositoryUnsafePath (state c') = repositoryUnsafePath (state c))
  /\ (p <> path (state c) -> k = Return -> state c' = state c)
  /\ (p <> path (state c) -> TrustClicked ∉ es -> state c' = state c)
  /\ path (state c') = path (state c)
  /\ calls c' = calls c
  /\ pending c' = delete i (pending c).
Proof.
  intros c Hi c'. subst c'. cbn [step]. rewrite (settle_type _ _ _ _ _ Hi). cbn.
  split; [ | split; [ | split; [ | split; [ | split; [ | split]]]]]; try reflexivity.
  - intros ->. rewrite applyResult_current. split; [reflexivity | ].
    destruct k, t; reflexivity.
  - intros Hp. rewrite applyResult_stale by exact Hp. now destruct k.
  - intros Hp ->. now rewrite applyResult_stale.
  - intros Hp Hes. rewrite applyResult_stale by exact Hp.
    pose proof (fromPathEdit_run es _ Hes (fromPathEdit_mount propsPath)) as Hall.
    destruct (Forall_lookup_1 _ _ _ _ Hall Hi) as [q [= _ ->]]. reflexivity.
  - rewrite continue_path. unfold applyResult. now case_decide.
Qed.

Lemma result_applied_iff_current_path_witness :
  let c := run [PathChanged "/repo"; PathChanged "/other"] (mount None) in
  let d := run [PathChanged "/repo"] (mount None) in
  (pending c !! 0 = Some (AwaitType "/repo" Return)
   /\ "/repo" <> path (state c)
   /\ state (step (Settle 0 (TypeIs Valid)) c) = state c)
  /\ (pending d !! 0 = Some (AwaitType "/repo" Return)
      /\ "/repo" = path (state d)
      /\ isRepository (state d) = false
      /\ isRepository (state (step (Settle 0 (TypeIs Valid)) d)) = true
      /\ repositoryUnsafePath (state (step (Settle 0 (TypeIs (Unsafe "/owner"))) d))
         = Some "/owner").
Proof.
  intros c d. split.
  - assert (H0 : pending c !! 0 = Some (AwaitType "/repo" Return)) by reflexivity.
    assert (Hne : "/repo" <> path (state c)) by (vm_compute; discriminate).
    split; [exact H0 | split; [exact Hne | ]].
    exact (proj1 (proj2 (proj2
      (result_applied_iff_current_path
         [PathChanged "/repo"; PathChanged "/other"] None 0 "/repo" Return Valid H0)))
      Hne eq_refl).
  - subst d.
    assert (H0 : pending (run [PathChanged "/repo"] (mount None)) !! 0
                 = Some (AwaitType "/repo" Return)) by reflexivity.
    assert (Heq : "/repo" = path (state (run [PathChanged "/repo"] (mount None))))
      by reflexivity.
    split; [exact H0 | split; [exact Heq | split; [reflexivity | ]]].
    split.
    + rewrite (proj2 (proj1
        (result_applied_iff_current_path [PathChanged "/repo"] None 0 "/repo" Return
           Valid H0) Heq)).
      reflexivity.
    + rewrite (proj2 (proj1
        (result_applied_iff_current_path [PathChanged "/repo"] None 0 "/repo" Return
           (Unsafe "/owner") H0) Heq)).
      reflexivity.
Defined.

(** ** Editing the path *)

(** C6.  [updatePath p] stores [p] and clears [isRepository], so the OK
    button is disabled.  For the empty path no request is made and the
    warning fields are cleared as well (the snapshot's [None]); for any
    other path exactly one request for [p] is made and left pending (the
    snapshot's [Pending]).  The snapshot classification tracked next to the
    controller is [None], respectively [Pending]. *)
Theorem updatePath_none_or_pending (p : string) (c : Controller) (k : Classification) :
  let c' := updatePath p c in
  path (state c') = p
  /\ isRepository (state c') = false
  /\ canSubmit (state c') = false
  /\ (trackedStep (FilePicked (Some p)) (c, k)).1 = c'
  /\ (trackedStep (FilePicked (Some p)) (c, k)).2 = (if isEmpty p then CNone else CPending)
  /\ (if isEmpty p
      then pending c' = pending c /\ calls c' = calls c
           /\ isRepositoryBare (state c') = false
           /\ showNonGitRepositoryWarning (state c') = false
      else pending c' = (pending c ++ [AwaitType p Return])%list
           /\ calls c' = (calls c ++ [GetRepositoryType p])%list).
Proof.
  intros c'. subst c'.
  unfold trackedStep, specStep, step, showFilePicker, specSetPath.
  unfold updatePath, validatePath, canSubmit, disabled.
  destruct (isEmpty p) eqn:Hp; cbn.
  - apply isEmpty_true in Hp. subst p. repeat split; reflexivity.
  - rewrite Hp. repeat split; reflexivity.
Qed.

(** The scenario of section 8: [setPath("")] on a freshly opened dialog. *)
Example setPath_empty_scenario :
  let ck := trackedRun [PathChanged "/repo"; PathChanged ""] (trackedMount None) in
  path (state ck.1) = "" /\ ck.2 = CNone /\ canSubmit (state ck.1) = false.
Proof. repeat split. Qed.

(** C8.  For an empty path [validatePath] writes [isRepository],
    [isRepositoryBare] and [showNonGitRepositoryWarning] and nothing else:
    [isRepositoryUnsafe] and [repositoryUnsafePath] keep their values, also
    through a whole [updatePath ""], and no request is made. *)
Theorem validatePath_empty_keeps_unsafe (c : Controller) :
  let c' := validatePath "" Return c in
  let c'' := updatePath "" c in
  state c' = {| path := path (state c);
                isRepository := false;
                showNonGitRepositoryWarning := false;
                isRepositoryBare := false;
                isRepositoryUnsafe := isRepositoryUnsafe (state c);
                repositoryUnsafePath := repositoryUnsafePath (state c);
                isTrustingRepository := isTrustingRepository (state c) |}
  /\ pending c' = pending c /\ calls c' = calls c
  /\ isRepositoryUnsafe (state c'') = isRepositoryUnsafe (state c)
  /\ repositoryUnsafePath (state c'') = repositoryUnsafePath (state c).
Proof. repeat split. Qed.

(** An unsafe marker left over from "/repo" after the path was emptied. *)
Example unsafe_marker_survives :
  let c := run [PathChanged "/repo"; Settle 0 (TypeIs (Unsafe "/repo")); PathChanged ""]
             (mount None) in
  path (state c) = "" /\ isRepositoryUnsafe (state c) = true
  /\ repositoryUnsafePath (state c) = Some "/repo".
Proof. repeat split. Qed.

(** C9.  [onPathChanged] with the path the state already holds returns the
    controller as it is: same state, same pending requests, same calls.
    With any other path it is [updatePath]. *)
Theorem onPathChanged_same_path_noop (c : Controller) :
  onPathChanged (path (state c)) c = c
  /\ forall p, p <> path (state c) -> onPathChanged p c = updatePath p c.
Proof.
  split.
  - unfold onPathChanged. now rewrite decide_False by (intros H; now apply H).
  - intros p Hp. unfold onPathChanged. now rewrite decide_True by congruence.
Qed.

Lemma onPathChanged_same_path_noop_witness :
  let c := mount (Some "/repo") in
  onPathChanged "/repo" c = c
  /\ onPathChanged "/other" c = updatePath "/other" c.
Proof.
  intros c. split.
  - exact (proj1 (onPathChanged_same_path_noop c)).
  - apply (proj2 (onPathChanged_same_path_noop c) "/other"). vm_compute. discriminate.
Defined.

(** ** Trusting a directory *)

Lemma lookup_snoc_length {A : Type} (l : list A) (x : A) :
  (l ++ [x])%list !! length l = Some x.
Proof. now apply list_lookup_middle. Qed.

Lemma delete_snoc_length {A : Type} (l : list A) (x : A) :
  delete (length l) (l ++ [x])%list = l.
Proof. rewrite delete_middle. apply app_nil_r. Qed.

Lemma truthy_nonempty (o : option string) (u : string) :
  truthy o = Some u -> o = Some u /\ u <> "".
Proof.
  destruct o as [p | ]; cbn; [ | discriminate].
  destruct (isEmpty p) eqn:Hp; [discriminate | ].
  intros [= <-]. split; [reflexivity | now apply isEmpty_false].
Qed.

Lemma truthy_Some (p : string) : p <> "" -> truthy (Some p) = Some p.
Proof. intros Hp. cbn. apply isEmpty_false in Hp. now rewrite Hp. Qed.

Lemma onTrustDirectory_unsafe (c : Controller) (p : string) :
  repositoryUnsafePath (state c) = Some p -> p <> "" ->
  onTrustDirectory c =
    {| state := setTrusting true (state c);
       pending := pending c ++ [AwaitSafe p (path (state c))];
       calls := calls c ++ [AddSafeDirectory p] |}.
Proof.
  intros Hu Hp. unfold onTrustDirectory. rewrite Hu, (truthy_Some _ Hp). reflexivity.
Qed.

Lemma safe_added_revalidates (c : Controller) (i : nat) (u captured : string) :
  pending c !! i = Some (AwaitSafe u captured) -> captured <> "" ->
  settle i SafeAdded c =
    {| state := state c;
       pending := delete i (pending c) ++ [AwaitType captured ResetTrusting];
       calls := calls c ++ [GetRepositoryType captured] |}.
Proof.
  intros Hi Hc. rewrite (settle_safe_added _ _ _ _ Hi).
  now rewrite validatePath_nonempty.
Qed.

(** C3, amended.  Invoked on a non-empty path whose recorded unsafe path is
    a non-empty [p], [onTrustDirectory] makes exactly one call,
    [addSafeDirectory p], and suspends holding the path the state has at
    that moment.  When the call resolves, in whatever controller [c2] the
    dialog has reached by then, exactly one request is made, for the path
    that was captured, not for the path of [c2]; the state is not touched
    by issuing it. *)
Theorem trust_revalidates_captured_path (c : Controller) (p : string) :
  repositoryUnsafePath (state c) = Some p -> p <> "" -> path (state c) <> "" ->
  let c1 := onTrustDirectory c in
  state c1 = setTrusting true (state c)
  /\ calls c1 = (calls c ++ [AddSafeDirectory p])%list
  /\ pending c1 = (pending c ++ [AwaitSafe p (path (state c))])%list
  /\ forall (c2 : Controller) (i : nat),
       pending c2 !! i = Some (AwaitSafe p (path (state c))) ->
       let c3 := settle i SafeAdded c2 in
       calls c3 = (calls c2 ++ [GetRepositoryType (path (state c))])%list
       /\ pending c3 = (delete i (pending c2) ++ [AwaitType (path (state c)) ResetTrusting])%list
       /\ state c3 = state c2.
Proof.
  intros Hu Hp Hpath c1. subst c1. rewrite (onTrustDirectory_unsafe _ _ Hu Hp). cbn.
  split; [reflexivity | split; [reflexivity | split; [reflexivity | ]]].
  intros c2 i Hi.
  now rewrite (safe_added_revalidates _ _ _ _ Hi Hpath).
Qed.

Lemma trust_revalidates_captured_path_witness :
  let c := run [PathChanged "/a"; Settle 0 (TypeIs (Unsafe "/a"))] (mount None) in
  repositoryUnsafePath (state c) = Some "/a"
  /\ calls (onTrustDirectory c) = (calls c ++ [AddSafeDirectory "/a"])%list
  /\ calls (settle 0 SafeAdded trustThenEdit)
     = (calls trustThenEdit ++ [GetRepositoryType "/a"])%list.
Proof.
  intros c.
  assert (Hu : repositoryUnsafePath (state c) = Some "/a") by reflexivity.
  assert (Hp : "/a" <> "") by discriminate.
  assert (Hpath : path (state c) <> "") by (vm_compute; discriminate).
  pose proof (trust_revalidates_captured_path c "/a" Hu Hp Hpath) as (_ & Hcalls & _ & Hlater).
  split; [exact Hu | split; [exact Hcalls | ]].
  exact (proj1 (Hlater trustThenEdit 0 eq_refl)).
Defined.

(** C3 as stated fails: in [trustThenEdit] the live path is "/b" when
    [addSafeDirectory "/a"] resolves, and the request that follows is for
    "/a". *)
Lemma trust_does_not_revalidate_live_path :
  let c := settle 0 SafeAdded trustThenEdit in
  path (state c) = "/b"
  /\ calls c = (calls trustThenEdit ++ [GetRepositoryType "/a"])%list
  /\ last (calls c) <> Some (GetRepositoryType (path (state c))).
Proof. repeat split. vm_compute. discriminate. Qed.

(** C4, amended.  When [addSafeDirectory] rejects, [onTrustDirectory] ends
    there: the state is left exactly as it is at that moment, so the
    classification fields are not changed and [isTrustingRepository] is not
    reset; no request is made.  When the rejection is the first thing that
    happens after the click, the state is the one before the click with
    [isTrustingRepository] set: the unsafe marker the click acted on is
    still recorded and the flag is [true]. *)
Theorem trust_failure_leaves_state (c : Controller) (i : nat) (u captured : string) :
  pending c !! i = Some (AwaitSafe u captured) ->
  let c' := settle i SafeFailed c in
  state c' = state c /\ calls c' = calls c /\ pending c' = delete i (pending c)
  /\ forall c0 : Controller,
       c = onTrustDirectory c0 -> i = length (pending c0) ->
       state c' = setTrusting true (state c0)
       /\ isTrustingRepository (state c') = true
       /\ repositoryUnsafePath (state c') = Some u
       /\ repositoryUnsafePath (state c0) = Some u
       /\ isRepositoryUnsafe (state c') = isRepositoryUnsafe (state c0)
       /\ isRepository (state c') = isRepository (state c0)
       /\ captured = path (state c0)
       /\ pending c' = pending c0
       /\ calls c' = (calls c0 ++ [AddSafeDirectory u])%list.
Proof.
  intros Hi c'. subst c'. rewrite (settle_safe_failed _ _ _ _ Hi). cbn.
  split; [reflexivity | split; [reflexivity | split; [reflexivity | ]]].
  intros c0 -> ->. revert Hi. unfold onTrustDirectory.
  destruct (truthy (repositoryUnsafePath (state c0))) as [u' | ] eqn:Hu.
  - cbn. rewrite lookup_snoc_length. intros [= -> ->].
    destruct (truthy_nonempty _ _ Hu) as [Hsome _]. rewrite Hsome, delete_snoc_length.
    repeat split.
  - unfold validatePath. destruct (isEmpty (path (state c0))); cbn.
    + rewrite lookup_ge_None_2 by lia. discriminate.
    + rewrite lookup_snoc_length. discriminate.
Qed.

Lemma trust_failure_leaves_state_witness :
  let c0 := run [PathChanged "/a"; Settle 0 (TypeIs (Unsafe "/a"))] (mount None) in
  pending trustClicked !! 0 = Some (AwaitSafe "/a" "/a")
  /\ state (settle 0 SafeFailed trustClicked) = state trustClicked
  /\ trustClicked = onTrustDirectory c0
  /\ isTrustingRepository (state (settle 0 SafeFailed trustClicked)) = true
  /\ isRepositoryUnsafe (state (settle 0 SafeFailed trustClicked)) = true.
Proof.
  intros c0.
  pose proof (trust_failure_leaves_state trustClicked 0 "/a" "/a" eq_refl)
    as (Hstate & _ & _ & Hfirst).
  destruct (Hfirst c0 eq_refl eq_refl) as (_ & Htrusting & _ & _ & Hunsafe & _).
  split; [reflexivity | split; [exact Hstate | split; [reflexivity | ]]].
  split; [exact Htrusting | ]. rewrite Hunsafe. reflexivity.
Defined.

(** C4 as stated fails: after the failure the repository is still shown as
    unsafe, but [isTrustingRepository] is [true], not [false]. *)
Lemma trust_failure_keeps_trusting_flag :
  let c := step (Settle 0 SafeFailed) trustClicked in
  isRepositoryUnsafe (state c) = true
  /\ repositoryUnsafePath (state c) = Some "/a"
  /\ pending c = []
  /\ isTrustingRepository (state c) <> false.
Proof. repeat split. vm_compute. discriminate. Qed.

(** C5, amended.  For a non-empty captured path, issuing the re-validation
    request leaves the whole state, [isTrustingRepository] included, as it
    is; the flag is cleared by the continuation that runs once the
    classifier has answered, whether the answer is applied or stale.  The
    flag plays no part in applying an answer or in the OK button. *)
Theorem trusting_reset_after_revalidation (c : Controller) (i : nat) (u captured : string) :
  pending c !! i = Some (AwaitSafe u captured) -> captured <> "" ->
  let c1 := settle i SafeAdded c in
  isTrustingRepository (state c1) = isTrustingRepository (state c)
  /\ pending c1 = (delete i (pending c) ++ [AwaitType captured ResetTrusting])%list
  /\ (forall (c2 : Controller) (j : nat) (t : RepositoryType),
        pending c2 !! j = Some (AwaitType captured ResetTrusting) ->
        state (settle j (TypeIs t) c2) = setTrusting false (applyResult captured t (state c2)))
  /\ (forall (s : State) (b : bool) (p : string) (t : RepositoryType),
        applyResult p t (setTrusting b s) = setTrusting b (applyResult p t s)
        /\ canSubmit (setTrusting b s) = canSubmit s).
Proof.
  intros Hi Hc c1. subst c1. rewrite (safe_added_revalidates _ _ _ _ Hi Hc). cbn.
  repeat split.
  - intros c2 j t Hj. now rewrite (settle_type _ _ _ _ _ Hj).
  - unfold applyResult. cbn. now case_decide.
Qed.

Lemma trusting_reset_after_revalidation_witness :
  pending trustClicked !! 0 = Some (AwaitSafe "/a" "/a")
  /\ isTrustingRepository (state (settle 0 SafeAdded trustClicked))
     = isTrustingRepository (state trustClicked).
Proof.
  assert (Hc : "/a" <> "") by discriminate.
  split; [reflexivity | ].
  exact (proj1 (trusting_reset_after_revalidation trustClicked 0 "/a" "/a" eq_refl Hc)).
Defined.

(** C5 as stated fails: the request for "/a" has been issued and is
    pending, and [isTrustingRepository] is still [true]. *)
Lemma trusting_still_set_after_request_issued :
  let c := step (Settle 0 SafeAdded) trustClicked in
  calls c = [GetRepositoryType "/a"; AddSafeDirectory "/a"; GetRepositoryType "/a"]
  /\ pending c = [AwaitType "/a" ResetTrusting]
  /\ isTrustingRepository (state c) <> false
  /\ isTrustingRepository (state (step (Settle 0 (TypeIs Valid)) c)) = false.
Proof. repeat split. vm_compute. discriminate. Qed.

(** C10.  With no unsafe path recorded, [onTrustDirectory] calls
    [addSafeDirectory] not at all and goes straight to [validatePath] for
    the path it read, with [isTrustingRepository] set.  For a non-empty
    path one request for it is made, and the flag is cleared when the
    classifier answers; for the empty path [validatePath] returns at once
    and the flag is cleared right away. *)
Theorem trust_without_unsafe_path (c : Controller) :
  repositoryUnsafePath (state c) = None ->
  let c1 := onTrustDirectory c in
  c1 = validatePath (path (state c)) ResetTrusting (withState (setTrusting true) c)
  /\ (forall p, AddSafeDirectory p ∈ calls c1 -> AddSafeDirectory p ∈ calls c)
  /\ (if isEmpty (path (state c))
      then state c1 = setTrusting false (resetForEmptyPath (state c))
           /\ pending c1 = pending c /\ calls c1 = calls c
      else state c1 = setTrusting true (state c)
           /\ pending c1 = (pending c ++ [AwaitType (path (state c)) ResetTrusting])%list
           /\ calls c1 = (calls c ++ [GetRepositoryType (path (state c))])%list
           /\ forall (c2 : Controller) (j : nat) (t : RepositoryType),
                pending c2 !! j = Some (AwaitType (path (state c)) ResetTrusting) ->
                isTrustingRepository (state (settle j (TypeIs t) c2)) = false).
Proof.
  intros Hu c1. subst c1. unfold onTrustDirectory. rewrite Hu. cbn [truthy].
  split; [reflexivity | ]. unfold validatePath.
  destruct (isEmpty (path (state c))) eqn:He; cbn.
  - repeat split. auto.
  - repeat split.
    + intros p Hin. apply elem_of_app in Hin as [Hin | Hin]; [exact Hin | ].
      apply list_elem_of_singleton in Hin. discriminate.
    + intros c2 j t Hj. now rewrite (settle_type _ _ _ _ _ Hj).
Qed.

Lemma trust_without_unsafe_path_witness :
  let c := mount (Some "/repo") in
  repositoryUnsafePath (state c) = None
  /\ calls (onTrustDirectory c) = [GetRepositoryType "/repo"; GetRepositoryType "/repo"]
  /\ isTrustingRepository (state (onTrustDirectory c)) = true.
Proof.
  intros c.
  pose proof (trust_without_unsafe_path c eq_refl) as (Heq & _ & _).
  split; [reflexivity | ]. rewrite Heq. split; reflexivity.
Defined.

(** ** The submission gate *)

Lemma agrees_setTrusting (b : bool) (s : State) (k : Classification) :
  agrees s k -> agrees (setTrusting b s) k.
Proof.
  destruct k as [| | t]; cbn; try tauto.
  intros [Hp Hw]. split; [exact Hp | ].
  rewrite <- Hw at 2. reflexivity.
Qed.

Lemma agrees_continue (k' : Continuation) (s : State) (k : Classification) :
  agrees s k -> agrees (continue k' s) k.
Proof. destruct k'; [tauto | apply agrees_setTrusting]. Qed.

Lemma consistent_updatePath (p : string) (c : Controller) (k : Classification) :
  Forall taskPathNonEmpty (pending c) ->
  consistent (updatePath p c, specSetPath p).
Proof.
  intros Hwf. unfold consistent, updatePath, validatePath, specSetPath.
  destruct (isEmpty p) eqn:Hp; cbn.
  - apply isEmpty_true in Hp. now split.
  - apply isEmpty_false in Hp. split; [ | now split].
    apply Forall_app. split; [exact Hwf | ]. now apply Forall_singleton.
Qed.

Lemma consistent_validatePath (p : string) (c : Controller) (k : Classification) :
  p <> "" -> consistent (c, k) -> consistent (validatePath p ResetTrusting c, k).
Proof.
  intros Hp [Hwf Hag]. rewrite (validatePath_nonempty _ _ _ Hp).
  split; [ | exact Hag]. cbn.
  apply Forall_app. split; [exact Hwf | ]. now apply Forall_singleton.
Qed.

Lemma trustLinkShown_path (s : State) : trustLinkShown s = true -> path s <> "".
Proof.
  unfold trustLinkShown. destruct (isEmpty (path s)) eqn:He; [discriminate | ].
  intros _. now apply isEmpty_false.
Qed.

Lemma consistent_onTrustDirectory (c : Controller) (k : Classification) :
  path (state c) <> "" -> consistent (c, k) -> consistent (onTrustDirectory c, k).
Proof.
  intros Hp [Hwf Hag]. unfold onTrustDirectory.
  destruct (truthy (repositoryUnsafePath (state c))) as [u | ].
  - split; cbn.
    + apply Forall_app. split; [exact Hwf | ]. now apply Forall_singleton.
    + now apply agrees_setTrusting.
  - apply consistent_validatePath; [exact Hp | ].
    split; [exact Hwf | now apply agrees_setTrusting].
Qed.

Lemma consistent_settle (i : nat) (r : Settlement) (c : Controller) (k : Classification) :
  consistent (c, k) -> consistent (trackedStep (Settle i r) (c, k)).
Proof.
  intros [Hwf Hag]. unfold trackedStep, step, specStep, settle. cbn [fst snd] in *.
  destruct (pending c !! i) as [[p k' | u captured] | ] eqn:Hi;
    [ | | destruct r; now split].
  - pose proof (Forall_lookup_1 _ _ _ _ Hwf Hi) as Hp. cbn in Hp.
    destruct r as [t | | ]; [ | now split | now split].
    split; cbn.
    + now apply Forall_delete.
    + apply agrees_continue. unfold applyResult.
      case_decide as Heq; [ | exact Hag].
      cbn. split; [congruence | reflexivity].
  - pose proof (Forall_lookup_1 _ _ _ _ Hwf Hi) as Hp. cbn in Hp.
    destruct r as [t | | ]; [now split | | ].
    + apply consistent_validatePath; [exact Hp | ].
      split; [now apply Forall_delete | exact Hag].
    + split; [now apply Forall_delete | exact Hag].
Qed.

Lemma consistent_step (e : Event) (ck : Controller * Classification) :
  consistent ck -> consistent (trackedStep e ck).
Proof.
  destruct ck as [c k]. intros Hc. destruct e as [p | [p | ] | | i r].
  - unfold trackedStep, step, specStep, onPathChanged. cbn [fst snd].
    case_decide; [ | exact Hc]. apply (consistent_updatePath _ _ k), Hc.
  - apply (consistent_updatePath _ _ k), Hc.
  - exact Hc.
  - unfold trackedStep, step, specStep. cbn [fst snd].
    destruct (trustLinkShown (state c)) eqn:Hshown; [ | exact Hc].
    apply consistent_onTrustDirectory; [ | exact Hc].
    now apply trustLinkShown_path.
  - now apply consistent_settle.
Qed.

Lemma consistent_mount (propsPath : option string) : consistent (trackedMount propsPath).
Proof.
  unfold consistent, trackedMount, mount, specSetPath. cbn [fst snd state].
  destruct (isEmpty (path (initialState propsPath))) eqn:He; cbn [negb].
  - apply isEmpty_true in He. split; [constructor | exact He].
  - apply isEmpty_false in He. rewrite (validatePath_nonempty _ _ _ He).
    split; [ | now split]. now apply Forall_singleton.
Qed.

Lemma consistent_run (es : list Event) (ck : Controller * Classification) :
  consistent ck -> consistent (trackedRun es ck).
Proof.
  revert ck. induction es as [| e es IH]; intros ck Hc; [exact Hc | ].
  apply IH. now apply consistent_step.
Qed.

Lemma trackedRun_fst (es : list Event) (ck : Controller * Classification) :
  (trackedRun es ck).1 = run es ck.1.
Proof.
  revert ck. induction es as [| e es IH]; intros ck; [reflexivity | ].
  cbn. unfold trackedRun in IH. rewrite IH. reflexivity.
Qed.

Lemma canSubmit_agrees (s : State) (k : Classification) :
  agrees s k -> canSubmit s = specCanSubmit (path s) k.
Proof.
  unfold canSubmit, disabled, specCanSubmit.
  destruct k as [| | t]; cbn.
  - intros ->. reflexivity.
  - intros [Hp Hr]. rewrite Hr. cbn. rewrite orb_true_r. cbn.
    now rewrite andb_false_r.
  - intros [Hp Hw]. apply isEmpty_false in Hp. rewrite Hp. rewrite <- Hw. cbn.
    destruct t; reflexivity.
Qed.

(** C2.  Along every run of a mounted dialog the OK button is enabled
    exactly when the specification's gate is open for the tracked snapshot:
    the path is not empty and the classification is [Valid].  For [None],
    [Pending], [Missing], [Unsafe] and [Bare] it is disabled.  The same
    holds for any state into which an answer has just been written. *)
Theorem canSubmit_iff_valid (es : list Event) (propsPath : option string) :
  let ck := trackedRun es (trackedMount propsPath) in
  ck.1 = run es (mount propsPath)
  /\ canSubmit (state ck.1) = specCanSubmit (path (state ck.1)) ck.2
  /\ match ck.2 with
     | CKnown Valid => canSubmit (state ck.1) = true /\ path (state ck.1) <> ""
     | CNone | CPending | CKnown Missing | CKnown (Unsafe _) | CKnown Bare =>
         canSubmit (state ck.1) = false
     end
  /\ forall (s : State) (t : RepositoryType),
       canSubmit (writeResult t s) = negb (isEmpty (path s)) && bool_decide (t = Valid).
Proof.
  intros ck.
  pose proof (consistent_run es _ (consistent_mount propsPath)) as [_ Hag].
  fold ck in Hag. pose proof (canSubmit_agrees _ _ Hag) as Hgate.
  split; [apply trackedRun_fst | ]. split; [exact Hgate | ]. split.
  - rewrite Hgate. unfold specCanSubmit.
    destruct ck.2 as [| | [| u | | ]] eqn:Hk; cbn; try apply andb_false_r.
    destruct Hag as [Hp _]. split; [ | exact Hp].
    apply isEmpty_false in Hp. now rewrite Hp.
  - intros s t. unfold canSubmit, disabled. cbn.
    destruct (isEmpty (path s)); [reflexivity | ]. now destruct t.
Qed.

(** The scenarios of section 8. *)
Example valid_repository_scenario :
  let ck := trackedRun [PathChanged "/repo"; Settle 0 (TypeIs Valid)] (trackedMount None) in
  path (state ck.1) = "/repo" /\ ck.2 = CKnown Valid /\ canSubmit (state ck.1) = true.
Proof. repeat split. Qed.

Example superseded_request_scenario :
  let ck := trackedRun [PathChanged "/repo"; PathChanged "/other"; Settle 0 (TypeIs Valid)]
              (trackedMount None) in
  path (state ck.1) = "/other" /\ ck.2 = CPending /\ canSubmit (state ck.1) = false.
Proof. repeat split. Qed.

Example unsafe_then_trusted_scenario :
  let es := [PathChanged "/repo"; Settle 0 (TypeIs (Unsafe "/repo"))] in
  let ck := trackedRun es (trackedMount None) in
  let ck' := trackedRun [TrustClicked; Settle 0 SafeAdded; Settle 0 (TypeIs Valid)] ck in
  canSubmit (state ck.1) = false /\ canSubmit (state ck'.1) = true
  /\ isTrustingRepository (state ck'.1) = false.
Proof. repeat split. Qed.

(** ** Path normalisation *)

Module PathNormalizerFacts.
Import PathNormalizer.

Lemma append_empty (s : string) : "" +:+ s = s.
Proof. reflexivity. Qed.

Lemma append_String (c : ascii) (x s : string) : String c x +:+ s = String c (x +:+ s).
Proof. reflexivity. Qed.

Lemma split_not_nil (sep : ascii) (s : string) : split sep s <> [].
Proof.
  destruct s as [| c rest]; cbn [split]; [discriminate | ].
  case_bool_decide; [discriminate | ]. now destruct (split sep rest).
Qed.

Lemma split_sep_cons (sep : ascii) (s : string) :
  split sep (String sep s) = "" :: split sep s.
Proof. cbn [split]. now rewrite bool_decide_eq_true_2. Qed.

Lemma split_snoc_sep (sep : ascii) (s : string) :
  split sep (s +:+ String sep "") = (split sep s ++ [""])%list.
Proof.
  induction s as [| c rest IH].
  - rewrite append_empty. apply split_sep_cons.
  - rewrite append_String. cbn [split]. rewrite IH.
    case_bool_decide; [reflexivity | ].
    pose proof (split_not_nil sep rest) as Hne.
    now destruct (split sep rest).
Qed.

Lemma split_segments_plain (sep : ascii) (s : string) :
  Forall (fun seg => contains sep seg = false) (split sep s).
Proof.
  induction s as [| c rest IH]; cbn [split].
  - now constructor.
  - case_bool_decide as Hc.
    + now constructor.
    + destruct (split sep rest) as [| seg segs].
      * constructor; [ | constructor]. cbn [contains].
        now rewrite bool_decide_eq_false_2.
      * inversion IH; subst. constructor; [ | assumption].
        cbn [contains]. now rewrite bool_decide_eq_false_2.
Qed.

Lemma split_plain_app (sep : ascii) (x s : string) :
  contains sep x = false ->
  split sep (x +:+ String sep s) = x :: split sep s.
Proof.
  induction x as [| c rest IH]; cbn [contains].
  - intros _. rewrite append_empty. apply split_sep_cons.
  - intros Hx. apply orb_false_iff in Hx as [Hc Hrest].
    rewrite append_String. cbn [split]. rewrite Hc. now rewrite (IH Hrest).
Qed.

Lemma split_plain (sep : ascii) (x : string) :
  contains sep x = false -> split sep x = [x].
Proof.
  induction x as [| c rest IH]; cbn [split contains]; [reflexivity | ].
  intros Hx. apply orb_false_iff in Hx as [Hc Hrest].
  rewrite Hc. now rewrite (IH Hrest).
Qed.

Lemma split_join (l : list string) :
  Forall (fun seg => contains "/" seg = false) l -> l <> [] ->
  split "/" (join l) = l.
Proof.
  induction l as [| x [| y r] IH]; intros Hl Hne; [congruence | | ].
  - inversion Hl; subst. now apply split_plain.
  - inversion Hl as [| ? ? Hx Hrest]; subst.
    change (join (x :: y :: r)) with (x +:+ String "/" (join (y :: r))).
    rewrite (split_plain_app _ _ _ Hx). now rewrite IH.
Qed.

Lemma normalizeSegments_kept (stack segs : list string) :
  Forall kept stack ->
  Forall (fun seg => contains "/" seg = false) segs ->
  Forall kept (normalizeSegments stack segs).
Proof.
  revert stack. induction segs as [| seg rest IH]; intros stack Hst Hsegs;
    cbn [normalizeSegments].
  - now apply Forall_rev.
  - inversion Hsegs as [| ? ? Hseg Hrest]; subst.
    repeat case_bool_decide; cbn [orb]; try (now apply IH).
    + apply IH; [ | exact Hrest]. destruct stack; [constructor | now inversion Hst].
    + apply IH; [ | exact Hrest]. constructor; [ | exact Hst]. now repeat split.
Qed.

Lemma normalizeSegments_kept_app (stack l r : list string) :
  Forall kept l ->
  normalizeSegments stack (l ++ r) = normalizeSegments (rev l ++ stack) r.
Proof.
  revert stack. induction l as [| seg rest IH]; intros stack Hl; [reflexivity | ].
  inversion Hl as [| ? ? (Hne & Hdot & Hdots & _) Hrest]; subst.
  cbn [app normalizeSegments rev].
  rewrite !bool_decide_eq_false_2 by assumption. cbn [orb].
  rewrite (IH _ Hrest). now rewrite <- app_assoc.
Qed.

Lemma resolve_shape (p : string) :
  exists l, Forall kept l /\ resolve p = String "/" (join l).
Proof.
  eexists. split; [ | reflexivity].
  apply normalizeSegments_kept; [constructor | apply split_segments_plain].
Qed.

Lemma resolve_fixed (l : list string) :
  Forall kept l -> resolve (String "/" (join l)) = String "/" (join l).
Proof.
  intros Hl. unfold resolve, isEmpty. cbn [startsWith].
  rewrite bool_decide_eq_false_2 by discriminate.
  rewrite bool_decide_eq_true_2 by reflexivity.
  rewrite !append_String, !append_empty. do 2 f_equal.
  rewrite split_sep_cons, split_snoc_sep.
  destruct l as [| x r]; [reflexivity | ].
  rewrite split_join.
  - cbn [normalizeSegments]. rewrite bool_decide_eq_true_2 by reflexivity. cbn [orb].
    rewrite (normalizeSegments_kept_app _ _ _ Hl), app_nil_r.
    cbn [normalizeSegments]. rewrite bool_decide_eq_true_2 by reflexivity. cbn [orb].
    apply rev_involutive.
  - eapply Forall_impl; [exact Hl | ]. now intros seg (_ & _ & _ & H).
  - discriminate.
Qed.

Lemma untildify_absolute (home s : string) :
  untildify home (String "/" s) = String "/" s.
Proof. unfold untildify. now destruct (isEmpty home). Qed.

(** C7.  [resolvedPath] is idempotent, whatever the home directory is. *)
Theorem resolvedPath_idempotent (homeDirectory p : string) :
  resolvedPath homeDirectory (resolvedPath homeDirectory p)
  = resolvedPath homeDirectory p.
Proof.
  unfold resolvedPath at 2 3.
  destruct (resolve_shape (untildify homeDirectory p)) as (l & Hl & ->).
  unfold resolvedPath. rewrite untildify_absolute. now apply resolve_fixed.
Qed.

Example resolvedPath_examples :
  resolvedPath "/home/alice" "~/work/../repo//" = "/home/alice/repo"
  /\ resolvedPath "/home/alice" "repo/./x" = "/repo/x"
  /\ resolvedPath "/home/alice" "~repo" = "/~repo"
  /\ resolvedPath "/home/alice" "" = "/".
Proof. repeat split. Qed.

End PathNormalizerFacts.

(** * Further properties of the dialog *)

(** ** Runs *)

Lemma run_snoc (es : list Event) (e : Event) (c : Controller) :
  run (es ++ [e]) c = step e (run es c).
Proof. unfold run. now rewrite foldl_snoc. Qed.

Lemma reachable_tasks (es : list Event) (propsPath : option string) :
  Forall taskPathNonEmpty (pending (run es (mount propsPath))).
Proof.
  pose proof (consistent_run es _ (consistent_mount propsPath)) as [Hwf _].
  now rewrite trackedRun_fst in Hwf.
Qed.

Lemma validatePath_path (p : string) (k : Continuation) (c : Controller) :
  path (state (validatePath p k c)) = path (state c).
Proof.
  unfold validatePath. destruct (isEmpty p); [ | reflexivity].
  cbn. now rewrite continue_path.
Qed.

Lemma settle_path (i : nat) (r : Settlement) (c : Controller) :
  path (state (settle i r c)) = path (state c).
Proof.
  unfold settle.
  destruct (pending c !! i) as [[p k | u captured] | ]; destruct r as [t | | ];
    try reflexivity.
  - cbn. rewrite continue_path. unfold applyResult. now case_decide.
  - unfold onTrustDirectoryResume. now rewrite validatePath_path.
Qed.

Lemma onTrustDirectory_path (c : Controller) :
  path (state (onTrustDirectory c)) = path (state c).
Proof.
  unfold onTrustDirectory. destruct (truthy _); [reflexivity | ].
  now rewrite validatePath_path.
Qed.

Lemma updatePath_path (p : string) (c : Controller) : path (state (updatePath p c)) = p.
Proof. unfold updatePath. now rewrite validatePath_path. Qed.

Lemma step_path (e : Event) (c : Controller) :
  path (state (step e c)) = enteredPath e (path (state c)).
Proof.
  destruct e as [p | [p | ] | | i r]; cbn [step enteredPath showFilePicker].
  - unfold onPathChanged. case_decide as Hp; [apply updatePath_path | ].
    destruct (decide (path (state c) = p)); [assumption | contradiction].
  - apply updatePath_path.
  - reflexivity.
  - destruct (trustLinkShown (state c)); [apply onTrustDirectory_path | reflexivity].
  - apply settle_path.
Qed.

(** X1.  The path the dialog holds is always the one entered last, by
    typing or through the directory picker; answers of the classifier,
    clicks on the trust link and the outcome of trusting never change it. *)
Theorem path_is_last_entered (es : list Event) (c : Controller) :
  path (state (run es c)) = lastEntered es (path (state c)).
Proof.
  revert c. induction es as [| e es IH]; intros c; [reflexivity | ].
  rewrite run_cons, IH, step_path. reflexivity.
Qed.

(** ** What is asked of the collaborators *)

Lemma validatePath_calls (p : string) (k : Continuation) (c : Controller) :
  calls (validatePath p k c)
  = (calls c ++ (if isEmpty p then [] else [GetRepositoryType p]))%list.
Proof.
  unfold validatePath. destruct (isEmpty p); cbn; [now rewrite app_nil_r | reflexivity].
Qed.

Lemma onTrustDirectory_calls (c : Controller) :
  calls (onTrustDirectory c)
  = (calls c ++ match truthy (repositoryUnsafePath (state c)) with
                | Some u => [AddSafeDirectory u]
                | None => if isEmpty (path (state c)) then []
                          else [GetRepositoryType (path (state c))]
                end)%list.
Proof.
  unfold onTrustDirectory. destruct (truthy _); [reflexivity | ].
  now rewrite validatePath_calls.
Qed.

Lemma step_calls (e : Event) (c : Controller) :
  calls (step e c) = (calls c ++ newCalls e c)%list.
Proof.
  destruct e as [p | [p | ] | | i r]; cbn [step newCalls showFilePicker].
  - unfold onPathChanged. case_decide; [ | now rewrite app_nil_r].
    unfold updatePath. now rewrite validatePath_calls.
  - unfold updatePath. now rewrite validatePath_calls.
  - now rewrite app_nil_r.
  - destruct (trustLinkShown (state c)); [apply onTrustDirectory_calls | ].
    now rewrite app_nil_r.
  - unfold settle.
    destruct (pending c !! i) as [[p k | u captured] | ]; destruct r as [t | | ];
      cbn; try (now rewrite app_nil_r).
    unfold onTrustDirectoryResume. now rewrite validatePath_calls.
Qed.

Lemma newCalls_nonempty (e : Event) (c : Controller) :
  Forall (fun call => callPath call <> "") (newCalls e c).
Proof.
  assert (Hget : forall p, Forall (fun call => callPath call <> "")
                             (if isEmpty p then [] else [GetRepositoryType p])).
  { intros p. destruct (isEmpty p) eqn:Hp; [constructor | ].
    apply Forall_singleton. now apply isEmpty_false. }
  destruct e as [p | [p | ] | | i r]; cbn [newCalls]; try (now constructor); auto.
  - case_decide; [apply Hget | constructor].
  - destruct (trustLinkShown (state c)); [ | constructor].
    destruct (truthy _) as [u | ] eqn:Hu; [ | apply Hget].
    apply Forall_singleton. apply (truthy_nonempty _ _ Hu).
  - destruct r; try (now constructor).
    destruct (pending c !! i) as [[p k | u captured] | ]; try (now constructor).
    apply Hget.
Qed.

(** X2.  Neither [getRepositoryType] nor [addSafeDirectory] is ever called
    with an empty path: if the calls made so far were for non-empty paths,
    so are the calls after any further events.  In particular this holds
    for every run of a freshly mounted dialog. *)
Theorem collaborators_never_get_empty_path (es : list Event) (c : Controller) :
  Forall (fun call => callPath call <> "") (calls c) ->
  Forall (fun call => callPath call <> "") (calls (run es c)).
Proof.
  revert c. induction es as [| e es IH]; intros c Hc; [exact Hc | ].
  rewrite run_cons. apply IH. rewrite step_calls.
  apply Forall_app. split; [exact Hc | apply newCalls_nonempty].
Qed.

Lemma mount_calls_nonempty (propsPath : option string) :
  Forall (fun call => callPath call <> "") (calls (mount propsPath)).
Proof.
  unfold mount. cbn [state].
  destruct (isEmpty (path (initialState propsPath))) eqn:He; cbn [negb]; [constructor | ].
  apply isEmpty_false in He. rewrite (validatePath_nonempty _ _ _ He).
  now apply Forall_singleton.
Qed.

Lemma collaborators_never_get_empty_path_witness :
  Forall (fun call => callPath call <> "")
    (calls (run [PathChanged ""; PathChanged "/repo"; TrustClicked] (mount (Some "")))).
Proof.
  apply collaborators_never_get_empty_path. apply mount_calls_nonempty.
Defined.

(** ** The fields of a reachable state *)

Ltac coherent :=
  unfold flagsCoherent in *; cbn in *; intuition (try congruence).

Lemma coherent_setTrusting (b : bool) (s : State) :
  flagsCoherent s -> flagsCoherent (setTrusting b s).
Proof. coherent. Qed.

Lemma coherent_continue (k : Continuation) (s : State) :
  flagsCoherent s -> flagsCoherent (continue k s).
Proof. destruct k; [tauto | apply coherent_setTrusting]. Qed.

Lemma coherent_setPathState (p : string) (s : State) :
  flagsCoherent s -> flagsCoherent (setPathState p s).
Proof. coherent. Qed.

Lemma coherent_resetForEmptyPath (s : State) :
  flagsCoherent s -> flagsCoherent (resetForEmptyPath s).
Proof. coherent. Qed.

Lemma coherent_writeResult (t : RepositoryType) (s : State) :
  path s <> "" -> flagsCoherent (writeResult t s).
Proof. destruct t; coherent. Qed.

Lemma coherent_applyResult (p : string) (t : RepositoryType) (s : State) :
  p <> "" -> flagsCoherent s -> flagsCoherent (applyResult p t s).
Proof.
  intros Hp Hs. unfold applyResult. case_decide as Heq; [ | exact Hs].
  apply coherent_writeResult. congruence.
Qed.

Lemma coherent_validatePath (p : string) (k : Continuation) (c : Controller) :
  flagsCoherent (state c) -> flagsCoherent (state (validatePath p k c)).
Proof.
  intros Hc. unfold validatePath. destruct (isEmpty p); [ | exact Hc].
  cbn. now apply coherent_continue, coherent_resetForEmptyPath.
Qed.

Lemma coherent_step (e : Event) (c : Controller) :
  Forall taskPathNonEmpty (pending c) ->
  flagsCoherent (state c) -> flagsCoherent (state (step e c)).
Proof.
  intros Hwf Hc. destruct e as [p | [p | ] | | i r]; cbn [step showFilePicker].
  - unfold onPathChanged. case_decide; [ | exact Hc].
    apply coherent_validatePath. cbn. now apply coherent_setPathState.
  - apply coherent_validatePath. cbn. now apply coherent_setPathState.
  - exact Hc.
  - destruct (trustLinkShown (state c)); [ | exact Hc].
    unfold onTrustDirectory. destruct (truthy _) as [u | ].
    + cbn. now apply coherent_setTrusting.
    + apply coherent_validatePath. cbn. now apply coherent_setTrusting.
  - unfold settle.
    destruct (pending c !! i) as [[p k | u captured] | ] eqn:Hi; destruct r as [t | | ];
      try exact Hc.
    + pose proof (Forall_lookup_1 _ _ _ _ Hwf Hi) as Hp. cbn in Hp.
      cbn. now apply coherent_continue, coherent_applyResult.
    + now apply coherent_validatePath.
Qed.

Lemma coherent_run (es : list Event) (propsPath : option string) :
  flagsCoherent (state (run es (mount propsPath))).
Proof.
  induction es as [| e es IH] using rev_ind.
  - unfold run, mount. cbn [foldl state]. destruct (negb _).
    + apply coherent_validatePath. destruct propsPath; coherent.
    + destruct propsPath; coherent.
  - rewrite run_snoc. apply coherent_step; [apply reachable_tasks | exact IH].
Qed.

(** X5.  In every state a mounted dialog can reach: the unsafe flag is set
    exactly when an unsafe path is recorded; a bare repository is always
    accompanied by the warning flag and never by the unsafe flag; and
    [isRepository] is set only for a non-empty path, never together with
    the unsafe flag, and then the warning flag equals the bare flag. *)
Theorem reachable_flags_coherent (es : list Event) (propsPath : option string) :
  let s := state (run es (mount propsPath)) in
  (isRepositoryUnsafe s = true <-> repositoryUnsafePath s <> None)
  /\ (isRepositoryBare s = true ->
      showNonGitRepositoryWarning s = true /\ isRepositoryUnsafe s = false)
  /\ (isRepository s = true ->
      path s <> "" /\ isRepositoryUnsafe s = false
      /\ showNonGitRepositoryWarning s = isRepositoryBare s).
Proof. exact (coherent_run es propsPath). Qed.

Lemma reachable_flags_coherent_witness :
  let s := state (run [PathChanged "/r"; Settle 0 (TypeIs Bare); PathChanged "/s"]
                    (mount None)) in
  isRepositoryBare s = true
  /\ showNonGitRepositoryWarning s = true /\ isRepositoryUnsafe s = false.
Proof.
  intros s. split; [reflexivity | ].
  exact (proj1 (proj2 (reachable_flags_coherent
    [PathChanged "/r"; Settle 0 (TypeIs Bare); PathChanged "/s"] None)) eq_refl).
Defined.

(** X6.  Whenever the OK button is enabled no warning is rendered; put the
    other way round, as long as any warning is on the screen the dialog
    cannot be submitted. *)
Theorem enabled_shows_no_warning (es : list Event) (propsPath : option string)
    (win32 : bool) :
  let s := state (run es (mount propsPath)) in
  canSubmit s = true -> renderWarning win32 s = NoWarning.
Proof.
  intros s. pose proof (coherent_run es propsPath) as (_ & _ & Hrepo). fold s in Hrepo.
  unfold canSubmit, disabled, renderWarning.
  destruct (isEmpty (path s)); [discriminate | ].
  destruct (isRepository s); [ | discriminate].
  destruct (isRepositoryBare s) eqn:Hbare; [discriminate | ].
  intros _. destruct (Hrepo eq_refl) as (_ & _ & ->). reflexivity.
Qed.

Lemma enabled_shows_no_warning_witness :
  let s := state (run [PathChanged "/r"; Settle 0 (TypeIs Valid)] (mount None)) in
  canSubmit s = true /\ renderWarning false s = NoWarning.
Proof.
  intros s. split; [reflexivity | ].
  exact (enabled_shows_no_warning [PathChanged "/r"; Settle 0 (TypeIs Valid)] None false
           eq_refl).
Defined.

(** X7.  A rendered warning reflects an answer of the classifier.  When the
    text offering to create a repository is shown, the fields are exactly
    those written for a missing repository; when the unsafe text with the
    trust link is shown, they are exactly those written for an unsafe
    repository at the recorded path; when the bare text is shown, no
    unsafe marker is recorded. *)
Theorem warning_matches_answer (es : list Event) (propsPath : option string)
    (win32 : bool) :
  let s := state (run es (mount propsPath)) in
  match renderWarning win32 s with
  | NoWarning => True
  | BareWarning => isRepositoryUnsafe s = false /\ repositoryUnsafePath s = None
  | UnsafeWarning _ =>
      exists u, repositoryUnsafePath s = Some u /\ writeResult (Unsafe u) s = s
  | NotRepositoryWarning => writeResult Missing s = s
  end.
Proof.
  intros s. pose proof (coherent_run es propsPath) as (Hunsafe & Hbare & Hrepo).
  fold s in Hunsafe, Hbare, Hrepo. unfold renderWarning.
  destruct s as [p repo warn bare unsafe up trusting]. cbn in *.
  destruct (isEmpty p); [exact I | ].
  destruct warn; [ | exact I]. cbn.
  destruct bare.
  - destruct (Hbare eq_refl) as [_ ->]. split; [reflexivity | ].
    destruct up; [ | reflexivity].
    assert (false = true) by (apply Hunsafe; discriminate). discriminate.
  - assert (repo = false) as ->.
    { destruct repo; [ | reflexivity]. now destruct (Hrepo eq_refl) as (_ & _ & ?). }
    destruct unsafe, up as [u | ]; cbn.
    + exists u. split; reflexivity.
    + now destruct (proj1 Hunsafe eq_refl).
    + assert (false = true) by (apply Hunsafe; discriminate). discriminate.
    + reflexivity.
Qed.

(** X8.  Editing the path does not make the warning flicker: going from one
    non-empty path to another leaves the same warning text on the screen
    until the classifier answers, while emptying the path removes it. *)
Theorem updatePath_keeps_warning (p : string) (c : Controller) (win32 : bool) :
  path (state c) <> "" ->
  (p <> "" ->
   sameKind (renderWarning win32 (state c)) (renderWarning win32 (state (updatePath p c)))
   = true)
  /\ renderWarning win32 (state (updatePath "" c)) = NoWarning.
Proof.
  intros Hold. split; [ | reflexivity].
  intros Hp. unfold updatePath. rewrite (validatePath_nonempty _ _ _ Hp). cbn.
  unfold renderWarning. cbn.
  apply isEmpty_false in Hold, Hp. rewrite Hold, Hp. cbn.
  destruct (showNonGitRepositoryWarning (state c)); [ | reflexivity]. cbn.
  destruct (isRepositoryBare (state c)); [reflexivity | ].
  destruct (isRepositoryUnsafe (state c)), (repositoryUnsafePath (state c)); reflexivity.
Qed.

Lemma updatePath_keeps_warning_witness :
  let c := run [PathChanged "/a"; Settle 0 (TypeIs (Unsafe "/a"))] (mount None) in
  renderWarning false (state c) = UnsafeWarning None
  /\ renderWarning false (state (updatePath "/b" c)) = UnsafeWarning (Some "/a")
  /\ sameKind (renderWarning false (state c))
       (renderWarning false (state (updatePath "/b" c))) = true.
Proof.
  intros c. split; [reflexivity | split; [reflexivity | ]].
  assert (Hold : path (state c) <> "") by (vm_compute; discriminate).
  assert (Hp : "/b" <> "") by discriminate.
  exact (proj1 (updatePath_keeps_warning "/b" c false Hold) Hp).
Defined.

(** ** Trusting, from the click to the new answer *)

(** X9.  The whole trust flow when nothing else happens in between: from a
    state that shows the trust link for a non-empty unsafe path [u], the
    click, the success of [addSafeDirectory] and the classifier's new
    answer [t] leave the dialog with the answer written for the unchanged
    path and [isTrustingRepository] cleared; exactly two calls were made,
    [addSafeDirectory u] and then a classification request for the path;
    nothing new is left pending; and the OK button is enabled exactly when
    the new answer is [Valid]. *)
Theorem trust_round_trip (c : Controller) (u : string) (t : RepositoryType) :
  trustLinkShown (state c) = true ->
  repositoryUnsafePath (state c) = Some u -> u <> "" ->
  let n := length (pending c) in
  let c' := run [TrustClicked; Settle n SafeAdded; Settle n (TypeIs t)] c in
  state c' = setTrusting false (writeResult t (state c))
  /\ pending c' = pending c
  /\ calls c' = (calls c ++ [AddSafeDirectory u; GetRepositoryType (path (state c))])%list
  /\ canSubmit (state c') = bool_decide (t = Valid).
Proof.
  intros Hshown Hu Hne n c'.
  pose proof (trustLinkShown_path _ Hshown) as Hpath.
  assert (Hc' : c' = {| state := setTrusting false (writeResult t (state c));
                        pending := pending c;
                        calls := (calls c ++ [AddSafeDirectory u;
                                              GetRepositoryType (path (state c))])%list |}).
  { subst c' n. unfold run. cbn [foldl step]. rewrite Hshown.
    rewrite (onTrustDirectory_unsafe _ _ Hu Hne).
    rewrite (safe_added_revalidates _ _ u (path (state c)))
      by (cbn; first [apply lookup_snoc_length | exact Hpath]).
    cbn [pending state calls]. rewrite delete_snoc_length.
    rewrite (settle_type _ (path (state c)) ResetTrusting)
      by (cbn; apply lookup_snoc_length).
    cbn [pending state calls]. rewrite delete_snoc_length, <- app_assoc.
    unfold applyResult. cbn. now rewrite decide_True. }
  rewrite Hc'. cbn [state pending calls]. repeat split.
  unfold canSubmit, disabled. cbn. apply isEmpty_false in Hpath. rewrite Hpath.
  now destruct t.
Qed.

Lemma trust_round_trip_witness :
  let c := run [PathChanged "/a"; Settle 0 (TypeIs (Unsafe "/a"))] (mount None) in
  trustLinkShown (state c) = true
  /\ canSubmit (state (run [TrustClicked; Settle 0 SafeAdded; Settle 0 (TypeIs Valid)] c))
     = true.
Proof.
  intros c. split; [reflexivity | ].
  assert (Hne : "/a" <> "") by discriminate.
  exact (proj2 (proj2 (proj2
    (trust_round_trip c "/a" Valid eq_refl eq_refl Hne)))).
Defined.

(** ** Answers arriving in any order *)

Lemma delete_delete_lt {A : Type} (l : list A) (i j : nat) :
  i < j -> delete (j - 1) (delete i l) = delete i (delete j l).
Proof.
  revert i j. induction l as [| x l IH]; intros i j Hij; [reflexivity | ].
  destruct j as [| j]; [lia | ]. destruct i as [| i]; cbn.
  - now rewrite Nat.sub_0_r.
  - destruct j as [| j]; [lia | ]. cbn. f_equal.
    specialize (IH i (S j) ltac:(lia)). cbn in IH.
    now rewrite Nat.sub_0_r in IH.
Qed.

Lemma writeResult_continue (k : Continuation) (t : RepositoryType) (s : State) :
  writeResult t (continue k s) = continue k (writeResult t s).
Proof. now destruct k. Qed.

Lemma applyResult_continue (p : string) (k : Continuation) (t : RepositoryType) (s : State) :
  applyResult p t (continue k s) = continue k (applyResult p t s).
Proof.
  unfold applyResult. rewrite continue_path.
  case_decide; [apply writeResult_continue | reflexivity].
Qed.

Lemma continue_continue (k1 k2 : Continuation) (s : State) :
  continue k1 (continue k2 s) = continue k2 (continue k1 s).
Proof. now destruct k1, k2. Qed.

Lemma applyResult_distinct (p1 p2 : string) (t1 t2 : RepositoryType) (s : State) :
  p1 <> p2 ->
  applyResult p1 t1 (applyResult p2 t2 s) = applyResult p2 t2 (applyResult p1 t1 s).
Proof.
  intros Hne. unfold applyResult.
  destruct (decide (p1 = path s)) as [H1 | H1], (decide (p2 = path s)) as [H2 | H2];
    cbn [path writeResult]; repeat case_decide; congruence.
Qed.

Lemma two_answers (c : Controller) (i j : nat) (p1 p2 : string) (k1 k2 : Continuation)
    (t1 t2 : RepositoryType) :
  i < j ->
  pending c !! i = Some (AwaitType p1 k1) ->
  pending c !! j = Some (AwaitType p2 k2) ->
  settle (j - 1) (TypeIs t2) (settle i (TypeIs t1) c)
  = {| state := continue k2 (applyResult p2 t2 (continue k1 (applyResult p1 t1 (state c))));
       pending := delete (j - 1) (delete i (pending c));
       calls := calls c |}
  /\ settle i (TypeIs t1) (settle j (TypeIs t2) c)
     = {| state := continue k1 (applyResult p1 t1 (continue k2 (applyResult p2 t2 (state c))));
          pending := delete i (delete j (pending c));
          calls := calls c |}.
Proof.
  intros Hij Hi Hj. split.
  - rewrite (settle_type _ _ _ _ _ Hi).
    rewrite (settle_type _ p2 k2); [reflexivity | ].
    cbn. rewrite list_lookup_delete_ge by lia.
    now replace (S (j - 1)) with j by lia.
  - rewrite (settle_type _ _ _ _ _ Hj).
    rewrite (settle_type _ p1 k1); [reflexivity | ].
    cbn. now rewrite list_lookup_delete_lt by lia.
Qed.

(** X10.  The order in which the classifier's answers to two requests for
    different paths arrive makes no difference: state, pending tasks and
    calls are the same either way. *)
Theorem answers_for_distinct_paths_commute (c : Controller) (i j : nat) (p1 p2 : string)
    (k1 k2 : Continuation) (t1 t2 : RepositoryType) :
  i < j ->
  pending c !! i = Some (AwaitType p1 k1) ->
  pending c !! j = Some (AwaitType p2 k2) ->
  p1 <> p2 ->
  settle (j - 1) (TypeIs t2) (settle i (TypeIs t1) c)
  = settle i (TypeIs t1) (settle j (TypeIs t2) c).
Proof.
  intros Hij Hi Hj Hne.
  destruct (two_answers c i j p1 p2 k1 k2 t1 t2 Hij Hi Hj) as [-> ->].
  f_equal.
  - rewrite !applyResult_continue, continue_continue. do 2 f_equal.
    apply not_eq_sym in Hne. now apply applyResult_distinct.
  - now apply delete_delete_lt.
Qed.

Lemma answers_for_distinct_paths_commute_witness :
  let c := run [PathChanged "/a"; PathChanged "/b"] (mount None) in
  settle 0 (TypeIs Bare) (settle 0 (TypeIs Valid) c)
  = settle 0 (TypeIs Valid) (settle 1 (TypeIs Bare) c).
Proof.
  intros c.
  assert (Hij : 0 < 1) by lia.
  assert (Hne : "/a" <> "/b") by discriminate.
  exact (answers_for_distinct_paths_commute c 0 1 "/a" "/b" Return Return Valid Bare
           Hij eq_refl eq_refl Hne).
Defined.

(** X11.  When two requests for the path the dialog holds are outstanding
    (the user went away from a path and came back to it), both answers are
    written as they arrive, so the fields end up being those of the answer
    that arrives last, whichever request it belongs to. *)
Theorem later_answer_for_same_path_wins (c : Controller) (i j : nat) (p : string)
    (k1 k2 : Continuation) (t1 t2 : RepositoryType) :
  i < j ->
  pending c !! i = Some (AwaitType p k1) ->
  pending c !! j = Some (AwaitType p k2) ->
  p = path (state c) ->
  state (settle (j - 1) (TypeIs t2) (settle i (TypeIs t1) c))
    = continue k2 (continue k1 (writeResult t2 (state c)))
  /\ state (settle i (TypeIs t1) (settle j (TypeIs t2) c))
     = continue k1 (continue k2 (writeResult t1 (state c))).
Proof.
  intros Hij Hi Hj ->.
  destruct (two_answers c i j _ _ k1 k2 t1 t2 Hij Hi Hj) as [-> ->].
  cbn [state]. rewrite !applyResult_continue, !applyResult_current.
  split; f_equal; f_equal; unfold applyResult; cbn; now rewrite decide_True.
Qed.

Lemma later_answer_for_same_path_wins_witness :
  let c := run [PathChanged "/a"; PathChanged "/b"; PathChanged "/a"] (mount None) in
  isRepository (state (settle 1 (TypeIs Missing) (settle 0 (TypeIs Valid) c))) = false
  /\ isRepository (state (settle 0 (TypeIs Valid) (settle 2 (TypeIs Missing) c))) = true.
Proof.
  intros c.
  assert (Hij : 0 < 2) by lia.
  destruct (later_answer_for_same_path_wins c 0 2 "/a" Return Return Valid Missing
              Hij eq_refl eq_refl eq_refl) as [H1 H2].
  split.
  - change (settle 1) with (settle (2 - 1)). rewrite H1. reflexivity.
  - rewrite H2. reflexivity.
Defined.

(** ** What gets trusted *)

Lemma validatePath_unsafePath (p : string) (k : Continuation) (c : Controller) :
  repositoryUnsafePath (state (validatePath p k c)) = repositoryUnsafePath (state c).
Proof.
  unfold validatePath. destruct (isEmpty p); [ | reflexivity]. now destruct k.
Qed.

Lemma step_unsafePath (e : Event) (c : Controller) (u : string) :
  repositoryUnsafePath (state (step e c)) = Some u ->
  repositoryUnsafePath (state c) = Some u \/ exists i, e = Settle i (TypeIs (Unsafe u)).
Proof.
  destruct e as [p | [p | ] | | i r]; cbn [step showFilePicker].
  - unfold onPathChanged. case_decide; [ | now left].
    unfold updatePath. rewrite validatePath_unsafePath. now left.
  - unfold updatePath. rewrite validatePath_unsafePath. now left.
  - now left.
  - destruct (trustLinkShown (state c)); [ | now left].
    unfold onTrustDirectory. destruct (truthy _); [now left | ].
    rewrite validatePath_unsafePath. now left.
  - unfold settle.
    destruct (pending c !! i) as [[p k | u' captured] | ]; destruct r as [t | | ];
      try (now left).
    + cbn. unfold applyResult. case_decide.
      * destruct k, t; cbn; try discriminate; intros [= ->]; right; now exists i.
      * destruct k; now left.
    + unfold onTrustDirectoryResume. rewrite validatePath_unsafePath. now left.
Qed.

Lemma newCalls_trust (e : Event) (c : Controller) (u : string) :
  AddSafeDirectory u ∈ newCalls e c ->
  e = TrustClicked /\ repositoryUnsafePath (state c) = Some u.
Proof.
  assert (Hget : forall p, AddSafeDirectory u ∈
                   (if isEmpty p then [] else [GetRepositoryType p]) -> False).
  { intros p. destruct (isEmpty p); [apply not_elem_of_nil | ].
    intros Hin. apply list_elem_of_singleton in Hin. discriminate. }
  destruct e as [p | [p | ] | | i r]; cbn [newCalls]; intros Hin.
  - case_decide; [now apply Hget in Hin | now apply not_elem_of_nil in Hin].
  - now apply Hget in Hin.
  - now apply not_elem_of_nil in Hin.
  - destruct (trustLinkShown (state c)); [ | now apply not_elem_of_nil in Hin].
    destruct (truthy _) as [u' | ] eqn:Hu; [ | now apply Hget in Hin].
    apply list_elem_of_singleton in Hin. injection Hin as ->.
    split; [reflexivity | apply (truthy_nonempty _ _ Hu)].
  - destruct r; try (now apply not_elem_of_nil in Hin).
    destruct (pending c !! i) as [[p k | u' captured] | ];
      try (now apply not_elem_of_nil in Hin).
    now apply Hget in Hin.
Qed.

Lemma reportedUnsafe_snoc (u : string) (es : list Event) (e : Event) :
  reportedUnsafe u es -> reportedUnsafe u (es ++ [e])%list.
Proof. intros [i Hi]. exists i. apply elem_of_app. now left. Qed.

Lemma unsafePath_was_reported (es : list Event) (propsPath : option string) (u : string) :
  repositoryUnsafePath (state (run es (mount propsPath))) = Some u ->
  reportedUnsafe u es.
Proof.
  induction es as [| e es IH] using rev_ind.
  - unfold run, mount. cbn [foldl state]. destruct (negb _).
    + rewrite validatePath_unsafePath. discriminate.
    + discriminate.
  - rewrite run_snoc. intros Hu. apply step_unsafePath in Hu as [Hu | [i ->]].
    + now apply reportedUnsafe_snoc, IH.
    + exists i. apply elem_of_app. right. now apply list_elem_of_singleton.
Qed.

(** X12.  The dialog marks a directory as safe only on the user's request
    and only if the classifier named it: whenever [addSafeDirectory u] is
    in the log of a run, the run contains a click on the trust link and an
    answer of the classifier reporting [u] as unsafe. *)
Theorem trusted_only_if_reported_and_clicked (es : list Event) (propsPath : option string)
    (u : string) :
  AddSafeDirectory u ∈ calls (run es (mount propsPath)) ->
  TrustClicked ∈ es /\ reportedUnsafe u es.
Proof.
  induction es as [| e es IH] using rev_ind.
  - unfold run, mount. cbn [foldl state]. destruct (negb _).
    + rewrite validatePath_calls. cbn [calls app]. intros Hin.
      destruct (isEmpty _); [now apply not_elem_of_nil in Hin | ].
      apply list_elem_of_singleton in Hin. discriminate.
    + intros Hin. now apply not_elem_of_nil in Hin.
  - rewrite run_snoc, step_calls. intros Hin.
    apply elem_of_app in Hin as [Hin | Hin].
    + destruct (IH Hin) as [Hclick Hrep]. split.
      * apply elem_of_app. now left.
      * now apply reportedUnsafe_snoc.
    + apply newCalls_trust in Hin as [-> Hu]. split.
      * apply elem_of_app. right. now apply list_elem_of_singleton.
      * apply reportedUnsafe_snoc. now apply (unsafePath_was_reported es propsPath).
Qed.

Lemma trusted_only_if_reported_and_clicked_witness :
  let es := [PathChanged "/a"; Settle 0 (TypeIs (Unsafe "/a")); TrustClicked] in
  AddSafeDirectory "/a" ∈ calls (run es (mount None))
  /\ TrustClicked ∈ es.
Proof.
  intros es.
  assert (Hin : AddSafeDirectory "/a" ∈ calls (run es (mount None))).
  { vm_compute. apply list_elem_of_In. right. now left. }
  split; [exact Hin | ].
  exact (proj1 (trusted_only_if_reported_and_clicked es None "/a" Hin)).
Defined.

(** ** The link and the warning *)

Lemma trustLinkShown_renderWarning (win32 : bool) (s : State) :
  trustLinkShown s = true <-> exists shown, renderWarning win32 s = UnsafeWarning shown.
Proof.
  unfold trustLinkShown, renderWarning.
  destruct (isEmpty (path s) || negb (showNonGitRepositoryWarning s)).
  { split; [discriminate | intros [? ?]; discriminate]. }
  destruct (isRepositoryBare s).
  { split; [discriminate | intros [? ?]; discriminate]. }
  destruct (isRepositoryUnsafe s), (repositoryUnsafePath s) as [u | ]; cbn;
    split; try discriminate; try (intros [? ?]; discriminate); eauto.
Qed.

(** ** Submitting *)

Module SubmitFacts.
Import PathNormalizer PathNormalizerFacts Submit.

(** X13.  Whatever was typed, [addRepository] and the link to create a
    repository hand on the same path, and that path is absolute and
    normalised: a slash followed by segments, joined by slashes, none of
    which is empty, [.] or [..]; resolving it again gives it back.
    ([Path.resolve] and [untildify] as modelled in [PathNormalizer].) *)
Theorem submitted_path_is_absolute (Repository : Type) (homeDirectory : string) (s : State) :
  exists segs : list string,
    Forall kept segs
    /\ @addRepository Repository homeDirectory s
       = [OnDismissed; AddRepositories [String "/" (join segs)]]
    /\ @onCreateRepositoryClicked Repository homeDirectory s
       = [ShowCreateRepositoryPopup (String "/" (join segs))]
    /\ resolvedPath homeDirectory (String "/" (join segs)) = String "/" (join segs).
Proof.
  unfold addRepository, onCreateRepositoryClicked, resolvedPath.
  destruct (resolve_shape (untildify homeDirectory (path s))) as (segs & Hsegs & ->).
  exists segs. repeat split; [exact Hsegs | ].
  rewrite untildify_absolute. now apply resolve_fixed.
Qed.

End SubmitFacts.

(** ** The "open a pull request" dialog *)

Module OpenPullRequestFacts.
Import OpenPullRequest.

Section Facts.

Context {Branch Repository ComputedAction : Type} `{EqDecision ComputedAction}.
Variable branchName : Branch -> string.
Variable Invalid : ComputedAction.

(** X14.  The content of the dialog is empty in exactly one situation: a
    base branch is known but there is no commit selection.  (The source
    expects the missing-default-branch message there, which is rendered
    only when the base branch is [null].) *)
Theorem content_empty_iff (props : @Props Branch Repository ComputedAction) :
  renderContent branchName Invalid props = []
  <-> baseBranch (pullRequestState props) <> None
      /\ commitSelection (pullRequestState props) = None.
Proof.
  unfold renderContent, renderNoChanges, renderNoDefaultBranch, renderFilesChanged.
  destruct (baseBranch (pullRequestState props)) as [base | ],
    (commitSelection (pullRequestState props)) as [selection | ]; cbn.
  - destruct (decide (length (shas selection) = 0)) as [H0 | H0].
    + rewrite bool_decide_eq_false_2 by tauto. rewrite bool_decide_eq_true_2 by exact H0.
      cbn. split; [discriminate | intros [_ ?]; discriminate].
    + rewrite bool_decide_eq_true_2 by exact H0. rewrite bool_decide_eq_false_2 by exact H0.
      cbn. split; [discriminate | intros [_ ?]; discriminate].
  - split; [split; [discriminate | reflexivity] | reflexivity].
  - destruct (bool_decide _); cbn; split; try discriminate; intros [? _]; congruence.
  - split; [discriminate | intros [? _]; congruence].
Qed.

(** X15.  The no-changes message is never shown next to anything else, and
    with a base branch at most one part of the content is shown; the
    changed files and the no-changes message exclude each other. *)
Theorem content_parts_exclusive (props : @Props Branch Repository ComputedAction) :
  (forall h b c,
     NoChangesMessage h b c ∈ renderContent branchName Invalid props ->
     renderContent branchName Invalid props = [NoChangesMessage h b c])
  /\ (baseBranch (pullRequestState props) <> None ->
      length (renderContent branchName Invalid props) <= 1)
  /\ (renderNoChanges branchName Invalid props = None
      \/ renderFilesChanged props = None).
Proof.
  unfold renderContent, renderNoChanges, renderNoDefaultBranch, renderFilesChanged.
  destruct (baseBranch (pullRequestState props)) as [base | ],
    (commitSelection (pullRequestState props)) as [selection | ]; cbn.
  - destruct (decide (length (shas selection) = 0)) as [H0 | H0].
    + rewrite bool_decide_eq_false_2 by tauto. rewrite bool_decide_eq_true_2 by exact H0.
      cbn. repeat split; [ | lia | now right].
      intros h b c Hin. apply list_elem_of_singleton in Hin. now rewrite Hin.
    + rewrite bool_decide_eq_true_2 by exact H0. rewrite bool_decide_eq_false_2 by exact H0.
      cbn. repeat split; [ | lia | now left].
      intros h b c Hin. apply list_elem_of_singleton in Hin. discriminate.
  - repeat split; [ | lia | now left]. intros h b c Hin. now apply not_elem_of_nil in Hin.
  - repeat split; [ | congruence | now left].
    intros h b c Hin. destruct (bool_decide _); cbn in Hin.
    + apply list_elem_of_singleton in Hin. discriminate.
    + apply elem_of_cons in Hin as [Hin | Hin]; [discriminate | ].
      apply list_elem_of_singleton in Hin. discriminate.
  - repeat split; [ | congruence | now left].
    intros h b c Hin. apply list_elem_of_singleton in Hin. discriminate.
Qed.

(** X16.  The OK button of the pull request dialog is disabled exactly when
    the header counts zero commits. *)
Theorem ok_disabled_iff_no_commits (props : @Props Branch Repository ComputedAction) :
  okButtonDisabled props = bool_decide (commitCount props = 0).
Proof.
  unfold okButtonDisabled, commitCount.
  destruct (commitSHAs (pullRequestState props)); reflexivity.
Qed.

(** X17.  Submitting the pull request dialog always ends with exactly one
    [onDismissed]; it shows the existing pull request exactly when the
    button says "view", and otherwise creates one against the base
    branch and records both statistics. *)
Theorem onCreatePullRequest_calls (props : @Props Branch Repository ComputedAction) :
  let made := onCreatePullRequest props in
  (exists before, made = (before ++ [OnDismissed])%list /\ OnDismissed ∉ before)
  /\ (viewCreate props = "查看" <-> made = [ShowPullRequest (repository props); OnDismissed])
  /\ (viewCreate props = "创建" <->
      made = [CreatePullRequest (repository props) (baseBranch (pullRequestState props));
              RecordCreatePullRequest; RecordCreatePullRequestFromPreview; OnDismissed]).
Proof.
  unfold onCreatePullRequest, viewCreate.
  destruct (currentBranchHasPullRequest props); cbn.
  - split; [ | repeat split; try reflexivity; discriminate].
    eexists [_]. split; [reflexivity | ].
    intros Hin. apply list_elem_of_singleton in Hin. discriminate.
  - split; [ | repeat split; try reflexivity; discriminate].
    eexists [_; _; _]. split; [reflexivity | ].
    intros Hin. repeat (apply elem_of_cons in Hin as [Hin | Hin]; [discriminate | ]).
    now apply not_elem_of_nil in Hin.
Qed.

End Facts.

Lemma content_empty_iff_witness :
  baseBranch (pullRequestState sampleProps) <> None
  /\ renderContent id false sampleProps = [].
Proof.
  assert (Hbase : baseBranch (pullRequestState sampleProps) <> None) by discriminate.
  split; [exact Hbase | ].
  exact (proj2 (content_empty_iff id false sampleProps) (conj Hbase eq_refl)).
Defined.

Lemma content_parts_exclusive_witness :
  baseBranch (pullRequestState sampleProps) <> None
  /\ length (renderContent id false sampleProps) <= 1.
Proof.
  assert (Hbase : baseBranch (pullRequestState sampleProps) <> None) by discriminate.
  split; [exact Hbase | ].
  exact (proj1 (proj2 (content_parts_exclusive id false sampleProps)) Hbase).
Defined.

Lemma onCreatePullRequest_calls_witness :
  viewCreate sampleProps = "创建"
  /\ onCreatePullRequest sampleProps
     = [CreatePullRequest tt (Some "main"); RecordCreatePullRequest;
        RecordCreatePullRequestFromPreview; OnDismissed].
Proof.
  split; [reflexivity | ].
  exact (proj1 (proj2 (proj2 (onCreatePullRequest_calls sampleProps))) eq_refl).
Defined.

End OpenPullRequestFacts.
